(** * bad_video_cleaner: the parallel verification pipeline

    A shallow embedding of [src/bad_video_cleaner.py] (probe, per-file
    checker, aggregation loop, deletion loop) together with the properties
    of its deletion gating, classification and logging.

    Conventions.
    - Python [str] values are [string]s, one [ascii] per character.
    - A call that may raise returns a [result]; the exception classes the
      program distinguishes are constructors of [exn_class].
    - The parts of the host the program only observes (the directory
      listing, [pathlib]'s suffix, the behaviour of the [cvlc] process, the
      decoding of its output, the paths the host refuses to open or to
      remove) are fields of a [World].  The order in which the pool's
      tasks finish is a separate [schedule].
    - The parent process's effects are threaded through a [State]: the
      files it can see and the chronological trace of its I/O calls. *)

From Stdlib Require Import ZArith NArith Ascii String List Lia.
From stdpp Require Import base tactics option list gmap strings pretty.

Local Open Scope Z_scope.

(** ** Text *)

Module Text.

Definition TAB : string := String (ascii_of_nat 9) EmptyString.
Definition NL : string := String (ascii_of_nat 10) EmptyString.
Definition QUOTE : string := String (ascii_of_nat 39) EmptyString.

(** [str.isspace] on the characters below U+0100: TAB..CR, FS..US, space,
    NEL and NBSP. *)
Definition isspace (c : ascii) : bool :=
  let n := nat_of_ascii c in
  ((9 <=? n)%nat && (n <=? 13)%nat)
  || ((28 <=? n)%nat && (n <=? 32)%nat)
  || (n =? 133)%nat || (n =? 160)%nat.

Fixpoint lstrip (s : string) : string :=
  match s with
  | EmptyString => EmptyString
  | String c s' => if isspace c then lstrip s' else s
  end.

Fixpoint rstrip (s : string) : string :=
  match s with
  | EmptyString => EmptyString
  | String c s' =>
      match rstrip s' with
      | EmptyString => if isspace c then EmptyString else String c EmptyString
      | t => String c t
      end
  end.

(** [str.strip()] with no argument. *)
Definition strip (s : string) : string := rstrip (lstrip s).

Definition CR : ascii := ascii_of_nat 13.
Definition LF : ascii := ascii_of_nat 10.

(** [s.replace("\r\n", "\n")]. *)
Fixpoint crlf_to_lf (s : string) : string :=
  match s with
  | EmptyString => EmptyString
  | String c s' =>
      if Ascii.eqb c CR then
        match s' with
        | String d s'' =>
            if Ascii.eqb d LF then String LF (crlf_to_lf s'')
            else String c (crlf_to_lf s')
        | EmptyString => String c EmptyString
        end
      else String c (crlf_to_lf s')
  end.

(** [s.replace("\r", "\n")]. *)
Fixpoint cr_to_lf (s : string) : string :=
  match s with
  | EmptyString => EmptyString
  | String c s' => String (if Ascii.eqb c CR then LF else c) (cr_to_lf s')
  end.

(** What text mode does to decoded output:
    [data.replace("\r\n", "\n").replace("\r", "\n")]. *)
Definition translate_newlines (s : string) : string :=
  cr_to_lf (crlf_to_lf s).


End Text.

Import Text.

(** ** Exceptions and results *)

Inductive exn_class :=
| TimeoutExpired
| FileNotFoundError
| ValueError
| OtherException (name : string).

Record exn := Exn { exn_cls : exn_class; exn_msg : string }.

Inductive result (A : Type) :=
| Ok (a : A)
| Raise (e : exn).
Arguments Ok {A} a.
Arguments Raise {A} e.

Definition is_ok {A} (r : result A) : bool :=
  match r with Ok _ => true | Raise _ => false end.

(** ** The host *)

(** Why [Popen] could not start the child: the executable is not found
    ([FileNotFoundError]), or an exception of another class [name], neither
    [FileNotFoundError] nor [TimeoutExpired] (a [PermissionError], a
    [BlockingIOError], ...), with the text [msg]. *)
Inductive spawn_failure :=
| ExecutableMissing
| SpawnError (name msg : string).

(** What the external process does when it is started with a given command
    line. *)
Inductive Proc :=
| CannotSpawn (f : spawn_failure)
| Exits (dur : N) (rc : Z) (out err : string)
| Hangs.

(** What decoding the bytes a child wrote gives: text, or the message of
    the [UnicodeDecodeError]. *)
Inductive decoded :=
| Text (s : string)
| Undecodable (msg : string).

(** What the program observes of its host:
    - [rglob d]: [str(p)] for each [p] that [Path(d).rglob("*")] yields;
    - [suffix_lower s]: [Path(s).suffix.lower()];
    - [exec argv]: the behaviour of the process started with [argv]; the
      [out] and [err] of [Exits] are the bytes it wrote;
    - [decode b]: [b.decode(encoding, "strict")] in the locale's encoding;
    - [open_refused p]: the exception [open(p, "w")] raises, if the host
      refuses (missing parent directory, [p] is a directory, no permission);
    - [remove_refused p]: the exception [os.remove(p)] raises for another
      cause than [p] being absent ([p] is a directory, no permission);
    - [py_repr s]: [repr(s)]. *)
Record World := {
  rglob : string -> list string;
  suffix_lower : string -> string;
  exec : list string -> Proc;
  decode : string -> decoded;
  open_refused : string -> option exn;
  remove_refused : string -> option exn;
  py_repr : string -> string
}.

Record CompletedProcess := {
  returncode : Z;
  stdout : string;
  stderr : string
}.

(** A call made in a worker: its value, the wall-clock time it took and
    whether it killed its child. *)
Record Ran (A : Type) := {
  value : result A;
  elapsed : Z;
  killed : bool
}.
Arguments value {A} r.
Arguments elapsed {A} r.
Arguments killed {A} r.

Definition spawn_exn (f : spawn_failure) : exn :=
  match f with
  | ExecutableMissing =>
      Exn FileNotFoundError "[Errno 2] No such file or directory"
  | SpawnError name msg => Exn (OtherException name) msg
  end.

Definition completes_within (p : Proc) (timeout : Z) : bool :=
  match p with
  | Exits dur _ _ _ => Z.of_N dur <=? timeout
  | _ => false
  end.

(** The text-mode reading of one captured stream: the bytes are decoded,
    strictly, then line ends are translated. *)
Definition read_text (w : World) (bytes : string) : result string :=
  match decode w bytes with
  | Text s => Ok (translate_newlines s)
  | Undecodable msg => Raise (Exn (OtherException "UnicodeDecodeError") msg)
  end.

(** [subprocess.run(argv, capture_output=True, text=True, timeout=timeout)]
    as the standard library documents it: a child that cannot be started
    raises at once; a child still running when the timeout expires is
    killed and [TimeoutExpired] is raised; the output of a child that has
    exited is read in text mode, stdout first, and what cannot be decoded
    raises [UnicodeDecodeError]. *)
Definition subprocess_run (w : World) (p : Proc) (timeout : Z)
  : Ran CompletedProcess :=
  match p with
  | CannotSpawn f =>
      {| value := Raise (spawn_exn f); elapsed := 0; killed := false |}
  | Exits dur rc out err =>
      if completes_within p timeout
      then {| value :=
                match read_text w out with
                | Raise e => Raise e
                | Ok out' =>
                    match read_text w err with
                    | Raise e => Raise e
                    | Ok err' =>
                        Ok {| returncode := rc; stdout := out';
                              stderr := err' |}
                    end
                end;
              elapsed := Z.of_N dur; killed := false |}
      else {| value := Raise (Exn TimeoutExpired "timed out");
              elapsed := Z.max 0 timeout; killed := true |}
  | Hangs =>
      {| value := Raise (Exn TimeoutExpired "timed out");
         elapsed := Z.max 0 timeout; killed := true |}
  end.

(** ** The probe *)

Definition VIDEO_EXTS : gset string :=
  {[ ".mp4"; ".mov"; ".avi"; ".wmv"; ".mkv"; ".flv"; ".mpeg"; ".mpg"; ".3gp" ]}.

(** The command line of the probe.  [path] is the string the checker was
    given: [str(Path(s))] is [s] for the strings [discover] produces. *)
Definition cvlc_argv (path : string) : list string :=
  ["cvlc"; "--intf"; "dummy"; "--play-and-exit"; "--no-sout-video"; path].

Definition CVLC_NOT_FOUND : string :=
  "cvlc not found, please install VLC and ensure 'cvlc' is in PATH".

Definition vlc_can_play (w : World) (path : string) (timeout : Z)
  : Ran (bool * string) :=
  let r := subprocess_run w (exec w (cvlc_argv path)) timeout in
  let v :=
    match value r with
    | Ok result =>
        if negb (returncode result =? 0)
        then Ok (false, strip (stderr result))
        else Ok (true, "ok")
    | Raise e =>
        match exn_cls e with
        | TimeoutExpired => Ok (false, "timeout expired")
        | FileNotFoundError => Ok (false, CVLC_NOT_FOUND)
        | _ => Raise e
        end
    end in
  {| value := v; elapsed := elapsed r; killed := killed r |}.

Definition DEFAULT_TIMEOUT : Z := 30.

(** The work unit: [check_video] calls the probe with its default timeout. *)
Definition check_video (w : World) (path : string)
  : Ran (string * bool * string) :=
  let r := vlc_can_play w path DEFAULT_TIMEOUT in
  let v :=
    match value r with
    | Ok (playable, reason) => Ok (path, negb playable, reason)
    | Raise e => Raise e
    end in
  {| value := v; elapsed := elapsed r; killed := killed r |}.

(** The outcomes of section 3 of the specification, as the probe encodes
    them. *)
Definition Playable : bool * string := (true, "ok").
Definition Failed (reason : string) : bool * string := (false, reason).
Definition TimedOut : bool * string := (false, "timeout expired").
Definition ProbeUnavailable : bool * string := (false, CVLC_NOT_FOUND).

(** ** The worker pool *)

(** The order in which tasks finish.  Tasks are handed out in submission
    order and at most [workers] of them run at a time, so the next task to
    finish is one of the first [workers] unfinished ones; the schedule's
    head, reduced modulo the number of running tasks, says which. *)
Definition schedule := list nat.

Fixpoint completion_order {A} (workers : nat) (sched : schedule)
    (pending : list A) (n : nat) : list A :=
  match n with
  | O => []
  | S n' =>
      let running := Nat.min workers (length pending) in
      let i := (hd 0%nat sched mod running)%nat in
      match pending !! i with
      | Some x => x :: completion_order workers (tl sched) (delete i pending) n'
      | None => []
      end
  end.

(** [pool.imap_unordered(f, xs)]: the results of [f], one per task, in the
    order the tasks finish. *)
Definition imap_unordered {A B} (workers : Z) (sched : schedule)
    (f : A -> B) (xs : list A) : list B :=
  map f (completion_order (Z.to_nat workers) sched xs (length xs)).

(** ** The parent process *)

Inductive Event :=
| EvPrint (s : string)
| EvSleep
| EvOpenW (p : string)
| EvWrite (p : string) (s : string)
| EvClose (p : string)
| EvRemove (p : string) (ok : bool).

Record State := {
  fs : gmap string string;
  trace : list Event
}.

Definition emit (e : Event) (st : State) : State :=
  {| fs := fs st; trace := trace st ++ [e] |}.

Definition print (s : string) (st : State) : State := emit (EvPrint s) st.

Definition sleep (st : State) : State := emit EvSleep st.

(** [open(p, "w")]: the file is created, or truncated when it exists;
    when the host refuses, the call raises and changes nothing. *)
Definition open_w (w : World) (p : string) (st : State)
  : result unit * State :=
  match open_refused w p with
  | Some e => (Raise e, st)
  | None =>
      (Ok tt,
       emit (EvOpenW p)
            {| fs := <[p := EmptyString]> (fs st); trace := trace st |})
  end.

Definition write (p s : string) (st : State) : State :=
  emit (EvWrite p s)
       {| fs := alter (fun c => c +:+ s) p (fs st); trace := trace st |}.

Definition close (p : string) (st : State) : State := emit (EvClose p) st.

(** [os.remove(p)]: when the host refuses, or when [p] does not exist, the
    call raises and changes nothing; [EvRemove p ok] records the call and
    whether it removed the file. *)
Definition os_remove (w : World) (p : string) (st : State)
  : result unit * State :=
  match remove_refused w p with
  | Some e => (Raise e, emit (EvRemove p false) st)
  | None =>
      match fs st !! p with
      | Some _ =>
          (Ok tt, emit (EvRemove p true)
                       {| fs := delete p (fs st); trace := trace st |})
      | None =>
          (Raise (Exn FileNotFoundError
                      ("[Errno 2] No such file or directory: "
                         +:+ py_repr w p)),
           emit (EvRemove p false) st)
      end
  end.

(** The locals of [scan_videos] while the results arrive. *)
Record Agg := {
  a_exit : result unit;
  a_seen : list (string * bool * string);
  a_good : list string;
  a_corrupted : list string;
  a_state : State
}.

Definition corrupt_line (reason path : string) : string :=
  "CORRUPT" +:+ TAB +:+ reason +:+ TAB +:+ path +:+ NL.

Definition ok_line (path : string) : string :=
  "OK" +:+ TAB +:+ path +:+ NL.

(** The [for] loop over the pool's results (lines 61-73).  A result that
    is an exception is re-raised by the iterator and ends the loop.
    [a_seen] is a ghost: the results the body has handled so far.  The
    [tqdm] wrapper yields the items of the iterator it wraps and draws its
    bar on stderr; it is left out. *)
Fixpoint aggregate (log_path : string)
    (rs : list (result (string * bool * string)))
    (seen : list (string * bool * string))
    (good corrupted : list string) (st : State) : Agg :=
  match rs with
  | [] =>
      {| a_exit := Ok tt; a_seen := seen; a_good := good;
         a_corrupted := corrupted; a_state := st |}
  | Raise e :: _ =>
      {| a_exit := Raise e; a_seen := seen; a_good := good;
         a_corrupted := corrupted; a_state := st |}
  | Ok (path, is_corrupt, reason) :: rs' =>
      if is_corrupt : bool then
        let st := print (corrupt_line reason path) st in
        let corrupted := corrupted ++ [path] in
        let st := write log_path (corrupt_line reason path) st in
        aggregate log_path rs' (seen ++ [(path, is_corrupt, reason)])
                  good corrupted st
      else
        let good := good ++ [path] in
        let st := write log_path (ok_line path) st in
        let st := print (ok_line path) st in
        aggregate log_path rs' (seen ++ [(path, is_corrupt, reason)])
                  good corrupted st
  end.

(** The deletion loop (lines 82-87). *)
Fixpoint delete_all (w : World) (corrupted : list string) (st : State)
  : State :=
  match corrupted with
  | [] => st
  | file :: rest =>
      match os_remove w file st with
      | (Ok _, st') => delete_all w rest (print ("Deleted: " +:+ file) st')
      | (Raise e, st') =>
          delete_all w rest
            (print ("Could not delete " +:+ file +:+ ": " +:+ exn_msg e) st')
      end
  end.

(** What a call of [scan_videos] leaves behind: how it returned, its locals
    and the state of the parent process. *)
Record Run := {
  r_exit : result unit;
  r_files : list string;
  r_seen : list (string * bool * string);
  r_good : list string;
  r_corrupted : list string;
  r_state : State
}.

(** Line 48: the candidate files. *)
Definition discover (w : World) (directory : string) : list string :=
  filter (fun p => suffix_lower w p ∈ VIDEO_EXTS) (rglob w directory).

(** The results the pool hands to the loop of [scan_videos]. *)
Definition pool_results (w : World) (sched : schedule) (workers : Z)
    (files : list string) : list (result (string * bool * string)) :=
  imap_unordered workers sched (fun p => value (check_video w p)) files.

(** [scan_videos], with the world and the schedule of the pool it runs
    in, from the state [st] of the parent process. *)
Definition scan_videos (w : World) (sched : schedule)
    (directory : string) (workers : Z) (dry_run : bool) (log_path : string)
    (st : State) : Run :=
  let files := discover w directory in
  match files with
  | [] =>
      {| r_exit := Ok tt; r_files := files; r_seen := []; r_good := [];
         r_corrupted := []; r_state := print "No video files found." st |}
  | _ :: _ =>
      let st := print ("Scanning " +:+ pretty (length files)
                         +:+ " video files using " +:+ pretty workers
                         +:+ " workers...") st in
      let st := sleep st in
      if workers <? 1 then
        (* Pool(workers) raises before the log is opened *)
        {| r_exit := Raise (Exn ValueError
                                "Number of processes must be at least 1");
           r_files := files; r_seen := []; r_good := []; r_corrupted := [];
           r_state := st |}
      else
      match open_w w log_path st with
      | (Raise e, st) =>
          (* open raises: the pool is torn down with no task submitted *)
          {| r_exit := Raise e; r_files := files; r_seen := []; r_good := [];
             r_corrupted := []; r_state := st |}
      | (Ok _, st) =>
        let a := aggregate log_path (pool_results w sched workers files)
                   [] [] [] st in
        let st := close log_path (a_state a) in
        match a_exit a with
        | Raise e =>
            {| r_exit := Raise e; r_files := files; r_seen := a_seen a;
               r_good := a_good a; r_corrupted := a_corrupted a;
               r_state := st |}
        | Ok _ =>
            let good := a_good a in
            let corrupted := a_corrupted a in
            let st := print (NL +:+ "=== Scan Complete ===") st in
            let st := print ("Good videos:     " +:+ pretty (length good)) st in
            let st := print ("Corrupted videos: "
                               +:+ pretty (length corrupted)) st in
            let st := print ("Log written to:   " +:+ log_path) st in
            let st :=
              match corrupted with
              | _ :: _ =>
                  if negb dry_run
                  then delete_all w corrupted
                         (print (NL +:+ "Deleting corrupted files...") st)
                  else st
              | [] => st
              end in
            let st :=
              if dry_run
              then print (NL +:+ "Dry run mode: No files deleted.") st
              else st in
            {| r_exit := Ok tt; r_files := files; r_seen := a_seen a;
               r_good := good; r_corrupted := corrupted; r_state := st |}
        end
      end
  end.

(** Views of a trace. *)
Definition log_writes (log_path : string) (t : list Event) : list string :=
  omap (fun e => match e with
                 | EvWrite p s => if decide (p = log_path) then Some s else None
                 | _ => None
                 end) t.

Definition removals (t : list Event) : list string :=
  omap (fun e => match e with EvRemove p _ => Some p | _ => None end) t.

(** The events a run added to the trace it started from. *)
Definition run_events (st : State) (r : Run) : list Event :=
  drop (length (trace st)) (trace (r_state r)).

(** The results the loop handles: those that arrive before the first
    exception. *)
Fixpoint received {A} (rs : list (result A)) : list A :=
  match rs with
  | Ok a :: rs' => a :: received rs'
  | _ => []
  end.


Definition item_path (x : string * bool * string) : string := x.1.1.
Definition item_corrupt (x : string * bool * string) : bool := x.1.2.
Definition item_reason (x : string * bool * string) : string := x.2.

(** The record one classification result puts in the log. *)
Definition item_line (x : string * bool * string) : string :=
  if item_corrupt x
  then corrupt_line (item_reason x) (item_path x)
  else ok_line (item_path x).

Definition item_events (log_path : string) (x : string * bool * string)
  : list Event :=
  if item_corrupt x
  then [EvPrint (item_line x); EvWrite log_path (item_line x)]
  else [EvWrite log_path (item_line x); EvPrint (item_line x)].

Definition joined (lines : list string) : string :=
  foldr String.app EmptyString lines.

(** The files the parent sees once the log is closed: the log holds the
    records of the results handled, every other path is as before. *)
Definition logged (log_path : string) (seen : list (string * bool * string))
    (st : State) (p : string) : option string :=
  if decide (p = log_path)
  then Some (joined (map item_line seen))
  else fs st !! p.



(** ** The output of a run, part by part *)

(** What [print] was called with, in order. *)
Definition prints (t : list Event) : list string :=
  omap (fun e => match e with EvPrint s => Some s | _ => None end) t.

(** Whether the probe of [p], run by the checker, ends with exit status 0
    within the default timeout. *)
Definition plays (w : World) (p : string) : bool :=
  match exec w (cvlc_argv p) with
  | Exits dur rc _ _ => (Z.of_N dur <=? DEFAULT_TIMEOUT) && (rc =? 0)
  | _ => false
  end.

(** The reason the probe of [p] gives the checker (empty when it raises). *)
Definition reason_of (w : World) (p : string) : string :=
  match value (vlc_can_play w p DEFAULT_TIMEOUT) with
  | Ok (_, reason) => reason
  | Raise _ => EmptyString
  end.

(** The result the checker returns for [p] when its probe does not raise. *)
Definition classification (w : World) (p : string)
  : string * bool * string :=
  (p, negb (plays w p), reason_of w p).

(** Lines 54-55 and the [open] of line 60. *)
Definition header_events (n : nat) (workers : Z) (log_path : string)
  : list Event :=
  [EvPrint ("Scanning " +:+ pretty n +:+ " video files using "
              +:+ pretty workers +:+ " workers...");
   EvSleep; EvOpenW log_path].

(** Lines 75-78. *)
Definition summary_events (good corrupted : list string) (log_path : string)
  : list Event :=
  [EvPrint (NL +:+ "=== Scan Complete ===");
   EvPrint ("Good videos:     " +:+ pretty (length good));
   EvPrint ("Corrupted videos: " +:+ pretty (length corrupted));
   EvPrint ("Log written to:   " +:+ log_path)].

(** How the [i]-th call of the deletion loop over [l] ends, when [present]
    tells which paths exist as the loop starts: the host's refusal if it
    refuses, success if the path exists and is not among the [i] paths
    before it, and "No such file" otherwise. *)
Definition removal_outcome (w : World) (present : string -> bool)
    (l : list string) (i : nat) (p : string) : result unit :=
  match remove_refused w p with
  | Some e => Raise e
  | None =>
      if present p && bool_decide (p ∉ take i l) then Ok tt
      else Raise (Exn FileNotFoundError
                      ("[Errno 2] No such file or directory: "
                         +:+ py_repr w p))
  end.

(** One turn of the deletion loop: the call and the line that reports it. *)
Definition removal_report (p : string) (o : result unit) : list Event :=
  [EvRemove p (is_ok o);
   EvPrint (match o with
            | Ok _ => "Deleted: " +:+ p
            | Raise e => "Could not delete " +:+ p +:+ ": " +:+ exn_msg e
            end)].

(** The deletion loop over [l]. *)
Definition deletion_events (w : World) (present : string -> bool)
    (l : list string) : list Event :=
  mjoin (imap (fun i p => removal_report p (removal_outcome w present l i p))
              l).

(** Lines 80-90. *)
Definition closing_events (w : World) (dry_run : bool)
    (present : string -> bool) (corrupted : list string) : list Event :=
  (match corrupted with
   | _ :: _ =>
       if dry_run then []
       else EvPrint (NL +:+ "Deleting corrupted files...")
              :: deletion_events w present corrupted
   | [] => []
   end)
  ++ (if dry_run then [EvPrint (NL +:+ "Dry run mode: No files deleted.")]
      else []).




(** ** Scenarios *)

Module Scenario.

Definition A_mp4 : string := "videos/A.mp4".
Definition B_mov : string := "videos/B.MOV".
Definition C_mkv : string := "videos/C.mkv".
Definition NOTES : string := "videos/notes.txt".
Definition LOG : string := "video_scan.log".

Definition listing : list string := [A_mp4; B_mov; C_mkv; NOTES].

(** [repr] of the names used here, which hold no quote and no escape. *)
Definition quoted (s : string) : string := QUOTE +:+ s +:+ QUOTE.

(** The suffix of the listed names, lower-cased. *)
Definition suffix_of (p : string) : string :=
  if decide (p = A_mp4) then ".mp4"
  else if decide (p = B_mov) then ".mov"
  else if decide (p = C_mkv) then ".mkv"
  else if decide (p = NOTES) then ".txt"
  else "".

(** Section 8: A plays, B fails with "decoder error", C hangs. *)
Definition w_abc : World := {|
  rglob := fun _ => listing;
  suffix_lower := suffix_of;
  exec := fun argv =>
    if decide (argv = cvlc_argv A_mp4) then Exits 12 0 "" ""
    else if decide (argv = cvlc_argv B_mov)
         then Exits 1 1 "" ("decoder error" +:+ NL)
    else Hangs;
  decode := Text;
  open_refused := fun _ => None;
  remove_refused := fun _ => None;
  py_repr := quoted
|}.

Definition fs_abc : gmap string string :=
  {[ A_mp4 := "aaaa"; B_mov := "bb"; C_mkv := "c"; NOTES := "n";
     LOG := "old" ]}.

Definition st_abc : State := {| fs := fs_abc; trace := [] |}.


(** The same files when starting the probe of B fails with an error the
    probe does not expect. *)
Definition w_crash : World := {|
  rglob := fun _ => listing;
  suffix_lower := suffix_of;
  exec := fun argv =>
    if decide (argv = cvlc_argv A_mp4) then Exits 12 0 "" ""
    else if decide (argv = cvlc_argv B_mov)
         then CannotSpawn
                (SpawnError "BlockingIOError"
                            "[Errno 11] Resource temporarily unavailable")
    else Hangs;
  decode := Text;
  open_refused := fun _ => None;
  remove_refused := fun _ => None;
  py_repr := quoted
|}.

(** The runs used below. *)
Definition run_abc : Run :=
  scan_videos w_abc [1%nat] "videos" 2 false LOG st_abc.

Definition run_abc_dry : Run :=
  scan_videos w_abc [1%nat] "videos" 2 true LOG st_abc.




End Scenario.

(** Further scenarios. *)
Module Scenario2.
Import Scenario.

(** A directory with no video in it. *)
Definition w_none : World := {|
  rglob := fun _ => [NOTES];
  suffix_lower := suffix_of;
  exec := fun _ => Hangs;
  decode := Text;
  open_refused := fun _ => None;
  remove_refused := fun _ => None;
  py_repr := quoted
|}.

Definition run_none : Run :=
  scan_videos w_none [] "videos" 2 false LOG st_abc.

(** [--workers 0]. *)
Definition run_zero : Run :=
  scan_videos w_abc [] "videos" 0 false LOG st_abc.

(** B is listed but is gone when the deletion loop starts. *)
Definition st_gone : State :=
  {| fs := delete B_mov (fs st_abc) ; trace := [] |}.

Definition run_one_worker : Run :=
  scan_videos w_abc [5%nat; 7%nat] "videos" 1 false LOG st_abc.

(** The first scenario on a host that does not let B be removed. *)
Definition w_locked : World := {|
  rglob := rglob w_abc;
  suffix_lower := suffix_lower w_abc;
  exec := exec w_abc;
  decode := decode w_abc;
  open_refused := open_refused w_abc;
  remove_refused := fun p =>
    if decide (p = B_mov)
    then Some (Exn (OtherException "PermissionError")
                   ("[Errno 13] Permission denied: " +:+ quoted B_mov))
    else None;
  py_repr := py_repr w_abc
|}.

Definition run_locked : Run :=
  scan_videos w_locked [1%nat] "videos" 2 false LOG st_abc.

(** The first scenario when the log path is a directory. *)
Definition w_nolog : World := {|
  rglob := rglob w_abc;
  suffix_lower := suffix_lower w_abc;
  exec := exec w_abc;
  decode := decode w_abc;
  open_refused := fun p =>
    if decide (p = LOG)
    then Some (Exn (OtherException "IsADirectoryError")
                   ("[Errno 21] Is a directory: " +:+ quoted LOG))
    else None;
  remove_refused := remove_refused w_abc;
  py_repr := py_repr w_abc
|}.

Definition run_nolog : Run :=
  scan_videos w_nolog [1%nat] "videos" 2 false LOG st_abc.



(** A byte that is no text in UTF-8. *)
Definition BAD : string := String (ascii_of_nat 255) EmptyString.

(** The first scenario when A's process exits with status 0 after writing
    that byte to stderr. *)
Definition w_binary : World := {|
  rglob := rglob w_abc;
  suffix_lower := suffix_lower w_abc;
  exec := fun argv =>
    if decide (argv = cvlc_argv A_mp4) then Exits 12 0 "" BAD
    else exec w_abc argv;
  decode := fun b =>
    if decide (b = BAD)
    then Undecodable
           "'utf-8' codec can't decode byte 0xff in position 0: invalid start byte"
    else Text b;
  open_refused := open_refused w_abc;
  remove_refused := remove_refused w_abc;
  py_repr := py_repr w_abc
|}.

(** The crash scenario when the probe of C fails to start as well. *)
Definition w_two_crashes : World := {|
  rglob := rglob w_crash;
  suffix_lower := suffix_lower w_crash;
  exec := fun argv =>
    if decide (argv = cvlc_argv C_mkv)
    then CannotSpawn (SpawnError "OSError" "[Errno 24] Too many open files")
    else exec w_crash argv;
  decode := decode w_crash;
  open_refused := open_refused w_crash;
  remove_refused := remove_refused w_crash;
  py_repr := py_repr w_crash
|}.

End Scenario2.

(** ** Facts about text *)

Lemma string_app_nil_r (s : string) : s +:+ "" = s.
Proof.
  induction s as [|c s IH]; [reflexivity|].
  change (String c (s +:+ "") = String c s). by rewrite IH.
Qed.

Lemma string_app_assoc (s t u : string) : s +:+ t +:+ u = (s +:+ t) +:+ u.
Proof.
  induction s as [|c s IH]; [reflexivity|].
  change (String c (s +:+ t +:+ u) = String c ((s +:+ t) +:+ u)).
  by rewrite IH.
Qed.

Lemma joined_app (l1 l2 : list string) :
  joined (l1 ++ l2) = joined l1 +:+ joined l2.
Proof.
  induction l1 as [|x l1 IH]; [reflexivity|].
  cbn [joined foldr app]. fold (joined (l1 ++ l2)). fold (joined l1).
  by rewrite IH, string_app_assoc.
Qed.

Lemma strip_empty : strip "" = "".
Proof. reflexivity. Qed.

Lemma lstrip_no_leading_space c t s : lstrip s = String c t -> isspace c = false.
Proof.
  induction s as [|d s IH]; simpl; [discriminate|].
  destruct (isspace d) eqn:Hd; [exact IH|].
  intros [= -> _]. exact Hd.
Qed.

Lemma lstrip_fixed c s : isspace c = false -> lstrip (String c s) = String c s.
Proof. intros H. simpl. by rewrite H. Qed.

Lemma rstrip_no_trailing_space s t c :
  rstrip s = t +:+ String c "" -> isspace c = false.
Proof.
  revert t. induction s as [|d s IH]; intros t; cbn [rstrip].
  - destruct t; discriminate.
  - destruct (rstrip s) as [|a u] eqn:Hs.
    + destruct (isspace d) eqn:Hd; [destruct t; discriminate|].
      destruct t as [|e t]; [by intros [= <-]|].
      intros [= _ Ht]. destruct t; discriminate.
    + destruct t as [|e t]; [discriminate|].
      intros [= _ Ht]. by apply (IH t).
Qed.

Lemma rstrip_head s c t : rstrip s = String c t -> exists s', s = String c s'.
Proof.
  destruct s as [|d s]; cbn [rstrip]; [discriminate|].
  destruct (rstrip s); [destruct (isspace d)|]; intros [= <- _]; eauto.
Qed.

(** What [strip] returns neither starts nor ends with whitespace. *)
Lemma strip_no_leading_space s c t : strip s = String c t -> isspace c = false.
Proof.
  unfold strip. intros [s' Hs']%rstrip_head.
  by eapply lstrip_no_leading_space.
Qed.

Lemma strip_no_trailing_space s t c :
  strip s = t +:+ String c "" -> isspace c = false.
Proof. apply rstrip_no_trailing_space. Qed.

Lemma rstrip_app_nonspace s c :
  isspace c = false -> rstrip (s +:+ String c "") = s +:+ String c "".
Proof.
  intros Hc. induction s as [|d s IH]; simpl.
  - by rewrite Hc.
  - rewrite IH. destruct s; reflexivity.
Qed.

(** ** Facts about the pool *)

Section pool.
Context {A : Type}.
Implicit Types (l pending : list A) (sched : schedule).

Lemma completion_order_elem workers sched n pending x :
  x ∈ completion_order workers sched pending n -> x ∈ pending.
Proof.
  revert sched pending. induction n as [|n IH]; intros sched pending; simpl.
  - by intros ?%elem_of_nil.
  - destruct (pending !! _) as [y|] eqn:Hy; [|by intros ?%elem_of_nil].
    intros [->|Hx]%elem_of_cons.
    + by eapply list_elem_of_lookup_2.
    + apply IH in Hx. by eapply list_elem_of_delete_inv.
Qed.

Lemma completion_order_sublist workers sched n pending :
  completion_order workers sched pending n ⊆+ pending.
Proof.
  revert sched pending. induction n as [|n IH]; intros sched pending; simpl.
  - apply submseteq_nil_l.
  - destruct (pending !! _) as [y|] eqn:Hy; [|apply submseteq_nil_l].
    pose proof (delete_Permutation pending _ y Hy) as HP.
    etrans; [apply submseteq_skip, IH|].
    apply Permutation_submseteq. by symmetry.
Qed.

(** With at least one worker every task finishes, exactly once. *)
Lemma completion_order_perm workers sched pending :
  (1 <= workers)%nat ->
  completion_order workers sched pending (length pending) ≡ₚ pending.
Proof.
  intros Hw. remember (length pending) as n eqn:Hn.
  revert sched pending Hn. induction n as [|n IH]; intros sched pending Hn.
  - destruct pending; [reflexivity|discriminate].
  - simpl. rewrite <- Hn.
    assert (Hlt : (hd 0%nat sched mod Nat.min workers (S n) < length pending)%nat).
    { rewrite <- Hn.
      pose proof (Nat.mod_upper_bound (hd 0%nat sched) (Nat.min workers (S n))).
      lia. }
    destruct (lookup_lt_is_Some_2 _ _ Hlt) as [y Hy]. rewrite Hy.
    pose proof (delete_Permutation pending _ y Hy) as HP.
    etrans; [|symmetry; exact HP].
    constructor. apply IH.
    rewrite length_delete by eauto. lia.
Qed.

(** One worker: the tasks finish in submission order. *)
Lemma completion_order_sequential sched pending :
  completion_order 1 sched pending (length pending) = pending.
Proof.
  revert sched. induction pending as [|x pending IH]; intros sched; [done|].
  cbn [completion_order length].
  replace (Nat.min 1 (S (length pending))) with 1%nat by lia.
  rewrite Nat.mod_1_r. cbn. by rewrite IH.
Qed.
End pool.


Lemma imap_unordered_elem {A B} workers sched (f : A -> B) xs y :
  y ∈ imap_unordered workers sched f xs -> exists x, x ∈ xs /\ y = f x.
Proof.
  unfold imap_unordered. intros (x & -> & Hx)%list_elem_of_fmap.
  exists x. split; [|done]. by eapply completion_order_elem.
Qed.

(** ** Facts about traces *)

Lemma removals_app t1 t2 : removals (t1 ++ t2) = removals t1 ++ removals t2.
Proof. apply omap_app. Qed.

Lemma log_writes_app lp t1 t2 :
  log_writes lp (t1 ++ t2) = log_writes lp t1 ++ log_writes lp t2.
Proof. apply omap_app. Qed.

Lemma removals_item_events lp xs : removals (xs ≫= item_events lp) = [].
Proof.
  induction xs as [|x xs IH]; [done|].
  rewrite bind_cons, removals_app, IH.
  unfold item_events. by destruct (item_corrupt x).
Qed.

Lemma log_writes_item_events lp xs :
  log_writes lp (xs ≫= item_events lp) = map item_line xs.
Proof.
  induction xs as [|x xs IH]; [done|].
  rewrite bind_cons, log_writes_app, IH.
  unfold item_events.
  destruct (item_corrupt x); simpl; by rewrite decide_True.
Qed.

Lemma elem_of_removals p t :
  p ∈ removals t <-> exists ok, EvRemove p ok ∈ t.
Proof.
  unfold removals. rewrite list_elem_of_omap. split.
  - intros (e & He & Hp). destruct e; try discriminate.
    injection Hp as ->. eauto.
  - intros (ok & He). by exists (EvRemove p ok).
Qed.

Lemma removals_nil_not_elem t p ok : removals t = [] -> EvRemove p ok ∉ t.
Proof.
  intros Hnil Hin.
  assert (p ∈ removals t) as Hp by (apply elem_of_removals; eauto).
  rewrite Hnil in Hp. by apply elem_of_nil in Hp.
Qed.

(** ** Facts about the aggregation loop *)

Lemma received_all {A} (rs : list (result A)) :
  Forall (fun r => is_ok r = true) rs -> map Ok (received rs) = rs.
Proof.
  induction 1 as [|[a|e] rs Hr _ IH]; simpl; [done| |discriminate].
  by rewrite IH.
Qed.

Lemma received_length {A} (rs : list (result A)) :
  (length (received rs) <= length rs)%nat.
Proof. induction rs as [|[a|e] rs IH]; simpl; lia. Qed.


Lemma received_elem {A} (rs : list (result A)) a :
  a ∈ received rs -> Ok a ∈ rs.
Proof.
  induction rs as [|[b|e] rs IH]; simpl; try by intros ?%elem_of_nil.
  intros [->|Hin]%elem_of_cons; [left|right; auto].
Qed.

Section aggregate.
Variable log_path : string.

Lemma aggregate_seen rs seen good corrupted st :
  a_seen (aggregate log_path rs seen good corrupted st)
  = seen ++ received rs.
Proof.
  revert seen good corrupted st.
  induction rs as [|[[[path c] reason]|e] rs IH]; intros; simpl;
    try by rewrite app_nil_r.
  destruct c; rewrite IH, <- app_assoc; reflexivity.
Qed.

Lemma aggregate_good rs seen good corrupted st :
  a_good (aggregate log_path rs seen good corrupted st)
  = good ++ map item_path
              (filter (fun x => item_corrupt x = false) (received rs)).
Proof.
  revert seen good corrupted st.
  induction rs as [|[[[path c] reason]|e] rs IH]; intros; simpl;
    try by rewrite app_nil_r.
  destruct c; rewrite IH.
  - by rewrite filter_cons_False by (by cbn).
  - rewrite filter_cons_True by (by cbn). by rewrite <- app_assoc.
Qed.

Lemma aggregate_corrupted rs seen good corrupted st :
  a_corrupted (aggregate log_path rs seen good corrupted st)
  = corrupted ++ map item_path
                   (filter (fun x => item_corrupt x = true) (received rs)).
Proof.
  revert seen good corrupted st.
  induction rs as [|[[[path c] reason]|e] rs IH]; intros; simpl;
    try by rewrite app_nil_r.
  destruct c; rewrite IH.
  - rewrite filter_cons_True by (by cbn). by rewrite <- app_assoc.
  - by rewrite filter_cons_False by (by cbn).
Qed.

Lemma aggregate_trace rs seen good corrupted st :
  trace (a_state (aggregate log_path rs seen good corrupted st))
  = trace st ++ (received rs ≫= item_events log_path).
Proof.
  revert seen good corrupted st.
  induction rs as [|[[[path c] reason]|e] rs IH]; intros; simpl;
    try by rewrite app_nil_r.
  destruct c; rewrite IH; cbn; by rewrite <- !app_assoc.
Qed.

Lemma aggregate_fs rs seen good corrupted st p :
  fs (a_state (aggregate log_path rs seen good corrupted st)) !! p
  = if decide (p = log_path)
    then (fun c => c +:+ joined (map item_line (received rs))) <$> fs st !! p
    else fs st !! p.
Proof.
  revert seen good corrupted st.
  induction rs as [|[[[path c] reason]|e] rs IH]; intros; simpl.
  1,3: case_decide; [|done]; destruct (fs st !! p); simpl; [|done];
       by rewrite string_app_nil_r.
  destruct c; rewrite IH; cbn; case_decide; subst;
    rewrite ?lookup_alter_eq, ?lookup_alter_ne by done; try done;
    destruct (fs st !! log_path); simpl; try done;
    by rewrite <- string_app_assoc.
Qed.

Lemma aggregate_exit_ok rs seen good corrupted st :
  Forall (fun r => is_ok r = true) rs ->
  a_exit (aggregate log_path rs seen good corrupted st) = Ok tt.
Proof.
  revert seen good corrupted st.
  induction rs as [|[[[path c] reason]|e] rs IH]; intros ???? Hall; simpl.
  - done.
  - apply Forall_cons in Hall as [_ Hall]. destruct c; by apply IH.
  - apply Forall_cons in Hall as [? _]. discriminate.
Qed.

Lemma aggregate_exit_raise rs seen good corrupted st e :
  Raise e ∈ rs ->
  exists e', Raise e' ∈ rs
    /\ a_exit (aggregate log_path rs seen good corrupted st) = Raise e'.
Proof.
  revert seen good corrupted st.
  induction rs as [|[[[path c] reason]|e0] rs IH]; intros ???? Hin; simpl.
  - by apply elem_of_nil in Hin.
  - apply elem_of_cons in Hin as [?|Hin]; [discriminate|].
    destruct c;
      (edestruct IH as (e' & ? & ->); [exact Hin|];
       exists e'; split; [by right|done]).
  - exists e0. split; [left|done].
Qed.

Lemma aggregate_exit_inv rs seen good corrupted st :
  a_exit (aggregate log_path rs seen good corrupted st) = Ok tt ->
  Forall (fun r => is_ok r = true) rs.
Proof.
  revert seen good corrupted st.
  induction rs as [|[[[path c] reason]|e] rs IH]; intros ???? Hex; simpl in *.
  - constructor.
  - constructor; [done|]. destruct c; eapply IH, Hex.
  - discriminate.
Qed.
End aggregate.

(** ** Facts about the deletion loop *)

Local Ltac elem_cases :=
  repeat case_decide; try done; exfalso;
  repeat match goal with
         | H : _ ∈ _ :: _ |- _ => apply elem_of_cons in H as [?|?]
         | H : _ ∉ _ :: _ |- _ => apply not_elem_of_cons in H as [? ?]
         end;
  eauto.

Lemma delete_all_spec w corrupted st :
  exists D,
    trace (delete_all w corrupted st) = trace st ++ D
    /\ removals D = corrupted
    /\ (forall lp, log_writes lp D = [])
    /\ forall p, fs (delete_all w corrupted st) !! p
                 = if decide (p ∈ corrupted)
                   then match remove_refused w p with
                        | Some _ => fs st !! p
                        | None => None
                        end
                   else fs st !! p.
Proof.
  revert st. induction corrupted as [|file rest IH]; intros st.
  - exists []. rewrite app_nil_r. by split_and!.
  - cbn [delete_all]. unfold os_remove.
    destruct (remove_refused w file) as [e|] eqn:Href;
      [|destruct (fs st !! file) as [c|] eqn:Hfile].
    + destruct (IH (print ("Could not delete " +:+ file +:+ ": " +:+ exn_msg e)
                      (emit (EvRemove file false) st)))
        as (D & Ht & Hr & Hw & Hfs).
      eexists (EvRemove file false :: EvPrint _ :: D).
      rewrite Ht. cbn. rewrite <- !app_assoc.
      split_and!.
      * done.
      * unfold removals in *. cbn. by f_equal.
      * intros lp. specialize (Hw lp). unfold log_writes in *. cbn. apply Hw.
      * intros p. rewrite Hfs. cbn.
        destruct (decide (p = file)) as [->|Hne].
        -- rewrite Href. rewrite (decide_True (P := file ∈ file :: rest)) by left.
           by case_decide.
        -- destruct (remove_refused w p); elem_cases.
    + destruct (IH (print ("Deleted: " +:+ file)
                      (emit (EvRemove file true)
                         {| fs := delete file (fs st); trace := trace st |})))
        as (D & Ht & Hr & Hw & Hfs).
      exists (EvRemove file true :: EvPrint ("Deleted: " +:+ file) :: D).
      rewrite Ht. cbn. rewrite <- !app_assoc. split_and!.
      * done.
      * unfold removals in *. cbn. by f_equal.
      * intros lp. specialize (Hw lp). unfold log_writes in *. cbn. apply Hw.
      * intros p. rewrite Hfs. cbn.
        destruct (decide (p = file)) as [->|Hne].
        -- rewrite lookup_delete_eq, Href.
           rewrite (decide_True (P := file ∈ file :: rest)) by left.
           by case_decide.
        -- rewrite lookup_delete_ne by done.
           destruct (remove_refused w p); elem_cases.
    + destruct (IH (print ("Could not delete " +:+ file +:+ ": "
                             +:+ "[Errno 2] No such file or directory: "
                             +:+ py_repr w file)
                      (emit (EvRemove file false) st)))
        as (D & Ht & Hr & Hw & Hfs).
      eexists (EvRemove file false :: EvPrint _ :: D).
      cbn [exn_msg]. rewrite Ht. cbn. rewrite <- !app_assoc.
      split_and!.
      * done.
      * unfold removals in *. cbn. by f_equal.
      * intros lp. specialize (Hw lp). unfold log_writes in *. cbn. apply Hw.
      * intros p. rewrite Hfs. cbn.
        destruct (decide (p = file)) as [->|Hne].
        -- rewrite Href, Hfile.
           rewrite (decide_True (P := file ∈ file :: rest)) by left.
           by case_decide.
        -- destruct (remove_refused w p); elem_cases.
Qed.

(** ** The shape of a run *)

Lemma trace_emit e st : trace (emit e st) = trace st ++ [e].
Proof. reflexivity. Qed.

Lemma fs_emit e st : fs (emit e st) = fs st.
Proof. reflexivity. Qed.

Lemma removals_header h lp items tl :
  removals tl = [] ->
  removals ([EvPrint h; EvSleep; EvOpenW lp]
              ++ (items ≫= item_events lp) ++ EvClose lp :: tl) = [].
Proof.
  intros Htl. rewrite !removals_app, removals_item_events.
  unfold removals in *. cbn. exact Htl.
Qed.

Lemma log_writes_header h lp items tl :
  log_writes lp tl = [] ->
  log_writes lp ([EvPrint h; EvSleep; EvOpenW lp]
                   ++ (items ≫= item_events lp) ++ EvClose lp :: tl)
  = map item_line items.
Proof.
  intros Htl. rewrite !log_writes_app, log_writes_item_events.
  unfold log_writes in *. cbn. rewrite Htl. by rewrite app_nil_r.
Qed.

Lemma aggregate_exit_raise_inv lp rs seen good corrupted st e :
  a_exit (aggregate lp rs seen good corrupted st) = Raise e -> Raise e ∈ rs.
Proof.
  revert seen good corrupted st.
  induction rs as [|[[[path c] reason]|e0] rs IH]; intros ???? Hex; simpl in *.
  - discriminate.
  - right. destruct c; eapply IH, Hex.
  - injection Hex as ->. left.
Qed.

Lemma aggregate_fs_logged lp rs st p :
  fs (a_state (aggregate lp rs [] [] []
                 (emit (EvOpenW lp)
                    {| fs := <[lp := EmptyString]> (fs st);
                       trace := trace st |}))) !! p
  = logged lp (received rs) st p.
Proof.
  rewrite aggregate_fs. unfold logged. cbn.
  case_decide as Hp.
  - subst p. by rewrite lookup_insert_eq.
  - by rewrite lookup_insert_ne.
Qed.


Lemma scan_videos_shape w sched directory workers dry_run lp st :
  let r := scan_videos w sched directory workers dry_run lp st in
  let files := discover w directory in
  let rs := pool_results w sched workers files in
  r_files r = files /\
  exists A D,
    trace (r_state r) = trace st ++ A ++ D
    /\ removals A = []
    /\ log_writes lp D = []
    /\ log_writes lp A = map item_line (r_seen r)
    /\ (((files = [] \/ workers < 1
          \/ (1 <= workers
              /\ exists e, open_refused w lp = Some e /\ r_exit r = Raise e))
         /\ r_seen r = [] /\ r_good r = [] /\ r_corrupted r = []
         /\ D = [] /\ fs (r_state r) = fs st
         /\ (forall p, EvOpenW p ∉ A)
         /\ (files = [] -> r_exit r = Ok tt)
         /\ (files <> [] -> exists e, r_exit r = Raise e))
        \/
        (files <> [] /\ (1 <= workers /\ open_refused w lp = None)
         /\ r_seen r = received rs
         /\ r_good r = map item_path
                         (filter (fun x => item_corrupt x = false) (received rs))
         /\ r_corrupted r = map item_path
                         (filter (fun x => item_corrupt x = true) (received rs))
         /\ (exists h A', A = [EvPrint h; EvSleep; EvOpenW lp] ++ A')
         /\ (((exists e, Raise e ∈ rs /\ r_exit r = Raise e)
              /\ D = []
              /\ forall p, fs (r_state r) !! p = logged lp (r_seen r) st p)
             \/
             (Forall (fun x => is_ok x = true) rs /\ r_exit r = Ok tt
              /\ (((dry_run = true \/ r_corrupted r = [])
                   /\ removals D = []
                   /\ forall p, fs (r_state r) !! p = logged lp (r_seen r) st p)
                  \/
                  (dry_run = false
                   /\ removals D = r_corrupted r
                   /\ forall p, fs (r_state r) !! p
                                = if decide (p ∈ r_corrupted r)
                                  then match remove_refused w p with
                                       | Some _ => logged lp (r_seen r) st p
                                       | None => None
                                       end
                                  else logged lp (r_seen r) st p)))))).
Proof.
  cbv zeta. unfold scan_videos.
  destruct (discover w directory) as [|f0 files'] eqn:Hfiles.
  { split; [done|]. exists [EvPrint "No video files found."], [].
    cbn. split_and!; try done. left. split_and!; try done; eauto.
    intros p [=]%list_elem_of_singleton. }
  rewrite <- Hfiles.
  destruct (workers <? 1) eqn:Hw.
  { apply Z.ltb_lt in Hw. split; [done|].
    eexists [EvPrint _; EvSleep], [].
    cbn. rewrite <- !app_assoc. split_and!; try done.
    left. split_and!; try done; eauto.
    - intros p [[=]|[=]%list_elem_of_singleton]%elem_of_cons.
    - intros Hf. rewrite Hf in Hfiles. discriminate. }
  apply Z.ltb_ge in Hw. unfold open_w.
  destruct (open_refused w lp) as [e0|] eqn:Hopen.
  { split; [done|].
    eexists [EvPrint _; EvSleep], [].
    cbn. rewrite <- !app_assoc. split_and!; try done.
    left. split_and!; try done; eauto 10.
    - intros p [[=]|[=]%list_elem_of_singleton]%elem_of_cons.
    - intros Hf. rewrite Hf in Hfiles. discriminate. }
  cbv zeta.
  fold (pool_results w sched workers (discover w directory)).
  set (rs := pool_results w sched workers (discover w directory)).
  set (hdr := ("Scanning " +:+ _)%string).
  set (a := aggregate lp rs [] [] [] _).
  assert (Hseen : a_seen a = received rs) by apply aggregate_seen.
  assert (Hgood : a_good a = map item_path
            (filter (fun x => item_corrupt x = false) (received rs)))
    by apply aggregate_good.
  assert (Hcorr : a_corrupted a = map item_path
            (filter (fun x => item_corrupt x = true) (received rs)))
    by apply aggregate_corrupted.
  assert (Htr : trace (a_state a)
                = trace st ++ [EvPrint hdr; EvSleep; EvOpenW lp]
                    ++ (received rs ≫= item_events lp)).
  { unfold a. rewrite aggregate_trace. cbn. by rewrite <- !app_assoc. }
  assert (Hfs : forall p, fs (a_state a) !! p = logged lp (received rs) st p).
  { intros p. apply (aggregate_fs_logged lp rs (sleep (print hdr st)) p). }
  assert (Hne : discover w directory <> []) by (rewrite Hfiles; discriminate).
  assert (Hraise : forall e, a_exit a = Raise e -> Raise e ∈ rs)
    by (intros e; apply aggregate_exit_raise_inv).
  assert (Hok : a_exit a = Ok tt -> Forall (fun x => is_ok x = true) rs)
    by apply aggregate_exit_inv.
  rewrite <- Hseen in Hfs.
  clearbody a.
  destruct (a_exit a) as [[]|e] eqn:Hex; cbn [r_files r_seen r_good r_corrupted
                                               r_exit r_state].
  2:{ (* the loop was ended by an exception *)
    split; [done|].
    exists ([EvPrint hdr; EvSleep; EvOpenW lp]
              ++ (received rs ≫= item_events lp) ++ [EvClose lp]), [].
    unfold close. rewrite trace_emit, fs_emit, Htr.
    split_and!.
    - by rewrite app_nil_r, <- !app_assoc.
    - by apply removals_header.
    - done.
    - rewrite Hseen. by apply log_writes_header.
    - right. split_and!; eauto.
      left. split_and!; eauto. }
  split; [done|].
  set (summary := [EvPrint (NL +:+ "=== Scan Complete ===");
                   EvPrint ("Good videos:     " +:+ pretty (length (a_good a)));
                   EvPrint ("Corrupted videos: "
                              +:+ pretty (length (a_corrupted a)));
                   EvPrint ("Log written to:   " +:+ lp)]).
  set (A := [EvPrint hdr; EvSleep; EvOpenW lp]
              ++ (received rs ≫= item_events lp) ++ EvClose lp :: summary).
  assert (HremA : removals A = []) by (by apply removals_header).
  assert (HlogA : log_writes lp A = map item_line (a_seen a))
    by (rewrite Hseen; by apply log_writes_header).
  set (st4 := print ("Log written to:   " +:+ lp) _).
  assert (Htr4 : trace st4 = trace st ++ A).
  { unfold st4, print, close. rewrite !trace_emit, Htr.
    unfold A, summary. by rewrite <- !app_assoc. }
  assert (Hfs4 : fs st4 = fs (a_state a)) by reflexivity.
  clearbody st4.
  exists A.
  destruct dry_run; cbn [negb].
  - (* dry run *)
    exists [EvPrint (NL +:+ "Dry run mode: No files deleted.")].
    assert (Hsame : match a_corrupted a with [] => st4 | _ :: _ => st4 end = st4)
      by (by destruct (a_corrupted a)).
    rewrite Hsame. unfold print. rewrite trace_emit, fs_emit, Htr4, Hfs4.
    split_and!; try done.
    + by rewrite <- app_assoc.
    + right; split_and!; eauto;
        right; split_and!; eauto;
        left; split_and!; eauto.
  - destruct (a_corrupted a) as [|c cs] eqn:Hcs.
    + exists []. rewrite Htr4, Hfs4.
      split_and!; try done.
      * by rewrite app_nil_r.
      * right; split_and!; eauto;
          right; split_and!; eauto;
          left; split_and!; eauto.
    + destruct (delete_all_spec w (c :: cs)
                  (print (NL +:+ "Deleting corrupted files...") st4))
        as (D & HtD & HrD & HwD & HfD).
      exists (EvPrint (NL +:+ "Deleting corrupted files...") :: D).
      rewrite HtD. unfold print at 1. rewrite trace_emit, Htr4.
      split_and!; try done.
      * by rewrite <- !app_assoc.
      * specialize (HwD lp). unfold log_writes in *. cbn. exact HwD.
      * right; split_and!; eauto;
          right; split_and!; eauto;
          right; split_and!; eauto.
        intros p. rewrite HfD. unfold print. by rewrite fs_emit, Hfs4, Hfs.
Qed.

(** The run of a pool that could not open its log. *)
Lemma scan_videos_open_refused w sched directory workers dry_run lp st e :
  discover w directory <> [] ->
  1 <= workers ->
  open_refused w lp = Some e ->
  scan_videos w sched directory workers dry_run lp st
  = {| r_exit := Raise e; r_files := discover w directory;
       r_seen := []; r_good := []; r_corrupted := [];
       r_state :=
         sleep (print ("Scanning " +:+ pretty (length (discover w directory))
                         +:+ " video files using " +:+ pretty workers
                         +:+ " workers...") st) |}.
Proof.
  intros Hne Hw Hopen. unfold scan_videos.
  destruct (discover w directory) as [|f0 files']; [done|].
  apply Z.ltb_ge in Hw. rewrite Hw. unfold open_w. by rewrite Hopen.
Qed.


(** ** Facts about the probe and the checker *)

Lemma read_text_raise w bytes e :
  read_text w bytes = Raise e ->
  exn_cls e = OtherException "UnicodeDecodeError".
Proof.
  unfold read_text. destruct (decode w bytes); [discriminate|].
  by intros [= <-].
Qed.

Lemma vlc_can_play_value w path timeout :
  value (vlc_can_play w path timeout) =
  match exec w (cvlc_argv path) with
  | CannotSpawn ExecutableMissing => Ok ProbeUnavailable
  | CannotSpawn (SpawnError name msg) => Raise (Exn (OtherException name) msg)
  | Exits dur rc out err =>
      if Z.of_N dur <=? timeout
      then match read_text w out with
           | Raise e => Raise e
           | Ok _ =>
               match read_text w err with
               | Raise e => Raise e
               | Ok err' =>
                   if rc =? 0 then Ok Playable else Ok (Failed (strip err'))
               end
           end
      else Ok TimedOut
  | Hangs => Ok TimedOut
  end.
Proof.
  unfold vlc_can_play, subprocess_run.
  destruct (exec w (cvlc_argv path)) as [[|name msg]|dur rc out err|];
    try reflexivity.
  cbn [completes_within]. destruct (Z.of_N dur <=? timeout); [|reflexivity].
  cbn [value].
  destruct (read_text w out) as [out'|e] eqn:Hout.
  2:{ by rewrite (read_text_raise _ _ _ Hout). }
  destruct (read_text w err) as [err'|e] eqn:Herr.
  2:{ by rewrite (read_text_raise _ _ _ Herr). }
  cbn. by destruct (rc =? 0).
Qed.

Lemma check_video_value w path :
  value (check_video w path) =
  match value (vlc_can_play w path DEFAULT_TIMEOUT) with
  | Ok (playable, reason) => Ok (path, negb playable, reason)
  | Raise e => Raise e
  end.
Proof. reflexivity. Qed.

Lemma check_video_path w path x :
  value (check_video w path) = Ok x -> item_path x = path.
Proof.
  rewrite check_video_value.
  destruct (value (vlc_can_play w path DEFAULT_TIMEOUT)) as [[playable reason]|e];
    [|discriminate].
  by intros [= <-].
Qed.

Lemma elem_of_log_writes lp t s :
  s ∈ log_writes lp t <-> EvWrite lp s ∈ t.
Proof.
  unfold log_writes. rewrite list_elem_of_omap. split.
  - intros (e & He & Hs). destruct e; try discriminate.
    case_decide; [|discriminate]. injection Hs as ->. by subst.
  - intros He. exists (EvWrite lp s). split; [done|]. by rewrite decide_True.
Qed.

Lemma app_eq_prefix {A} (l1 l2 k1 k2 : list A) (e : A) :
  l1 ++ l2 = k1 ++ e :: k2 -> e ∉ l1 -> exists k, k1 = l1 ++ k.
Proof.
  revert k1. induction l1 as [|a l1 IH]; intros k1 Heq Hnotin.
  - by exists k1.
  - apply not_elem_of_cons in Hnotin as [Hne Hnotin].
    destruct k1 as [|b k1]; cbn in Heq; injection Heq as Hab Heq.
    + by subst.
    + subst b. destruct (IH k1 Heq Hnotin) as [k ->]. by exists k.
Qed.

Lemma partition_perm (l : list (string * bool * string)) :
  map item_path (filter (fun x => item_corrupt x = false) l)
    ++ map item_path (filter (fun x => item_corrupt x = true) l)
  ≡ₚ map item_path l.
Proof.
  induction l as [|[[p c] reason] l IH]; [done|].
  destruct c.
  - rewrite filter_cons_False by (by cbn). rewrite filter_cons_True by (by cbn).
    cbn [map]. rewrite <- Permutation_middle. by constructor.
  - rewrite filter_cons_True by (by cbn). rewrite filter_cons_False by (by cbn).
    cbn [map app]. by constructor.
Qed.

Lemma prefix_submseteq {A} (l k : list A) : l `prefix_of` k -> l ⊆+ k.
Proof. intros [k' ->]. by apply submseteq_inserts_r. Qed.

(** The paths of the results handled are the first tasks to finish. *)
Lemma received_paths_prefix w (order : list string) :
  map item_path (received (map (fun p => value (check_video w p)) order))
  `prefix_of` order.
Proof.
  induction order as [|p order IH]; [done|]. cbn [map received].
  destruct (value (check_video w p)) as [x|e] eqn:Hx.
  - cbn [map]. rewrite (check_video_path _ _ _ Hx). by apply prefix_cons.
  - apply prefix_nil.
Qed.

Lemma received_paths_all w (order : list string) :
  Forall (fun p => is_ok (value (check_video w p)) = true) order ->
  map item_path (received (map (fun p => value (check_video w p)) order))
  = order.
Proof.
  induction 1 as [|p order Hp _ IH]; [done|]. cbn [map received].
  destruct (value (check_video w p)) as [x|e] eqn:Hx; [|discriminate].
  cbn [map]. by rewrite (check_video_path _ _ _ Hx), IH.
Qed.

(** The checker's answer, read off the behaviour of the process. *)
Lemma vlc_can_play_plays w p :
  match value (vlc_can_play w p DEFAULT_TIMEOUT) with
  | Ok (playable, _) => playable = plays w p
  | Raise _ => True
  end.
Proof.
  rewrite vlc_can_play_value. unfold plays.
  destruct (exec w (cvlc_argv p)) as [[|name msg]|dur rc out err|]; try done.
  destruct (Z.of_N dur <=? DEFAULT_TIMEOUT); [|done].
  destruct (read_text w out); [|done].
  destruct (read_text w err); [|done].
  by destruct (rc =? 0).
Qed.

Lemma check_video_classification w p x :
  value (check_video w p) = Ok x -> x = classification w p.
Proof.
  rewrite check_video_value. unfold classification, reason_of.
  pose proof (vlc_can_play_plays w p) as Hp.
  destruct (value (vlc_can_play w p DEFAULT_TIMEOUT)) as [[playable reason]|e];
    [|discriminate].
  intros [= <-]. by rewrite Hp.
Qed.


(** ** Facts about the order of arrival *)







(** ** Properties of a run *)

Section run.
Variables (w : World) (sched : schedule) (directory : string) (workers : Z)
          (dry_run : bool) (log_path : string) (st : State).

Local Abbreviation r := (scan_videos w sched directory workers dry_run log_path st).
Local Abbreviation files := (discover w directory).
Local Abbreviation rs := (pool_results w sched workers (discover w directory)).

Lemma run_files : r_files r = files.
Proof. apply scan_videos_shape. Qed.

Lemma run_trace : trace (r_state r) = trace st ++ run_events st r.
Proof.
  destruct (scan_videos_shape w sched directory workers dry_run log_path st)
    as (_ & A & D & Ht & _).
  unfold run_events. by rewrite Ht, drop_app_length.
Qed.

(** Every result the loop handled is the checker's answer for a discovered
    file, and carries that file's path. *)
Lemma seen_classified x :
  x ∈ r_seen r -> item_path x ∈ files /\ value (check_video w (item_path x)) = Ok x.
Proof.
  destruct (scan_videos_shape w sched directory workers dry_run log_path st)
    as (_ & A & D & _ & _ & _ & _ & [Hnone|Hpool]).
  - destruct Hnone as (_ & -> & _). by intros ?%elem_of_nil.
  - destruct Hpool as (_ & _ & -> & _).
    intros (p & Hp & Hx)%received_elem%imap_unordered_elem.
    symmetry in Hx. pose proof (check_video_path _ _ _ Hx) as ->. done.
Qed.

Lemma corrupted_seen p :
  p ∈ r_corrupted r <-> exists reason, (p, true, reason) ∈ r_seen r.
Proof.
  destruct (scan_videos_shape w sched directory workers dry_run log_path st)
    as (_ & A & D & _ & _ & _ & _ & [Hnone|Hpool]).
  - destruct Hnone as (_ & -> & _ & -> & _). split.
    + by intros ?%elem_of_nil.
    + by intros [? ?%elem_of_nil].
  - destruct Hpool as (_ & _ & -> & _ & -> & _).
    rewrite list_elem_of_fmap. setoid_rewrite list_elem_of_filter. split.
    + intros ([[q c] reason] & -> & Hc & Hin). cbn in Hc. subst c. eauto.
    + intros (reason & Hin). by exists (p, true, reason).
Qed.

Lemma good_seen p :
  p ∈ r_good r <-> exists reason, (p, false, reason) ∈ r_seen r.
Proof.
  destruct (scan_videos_shape w sched directory workers dry_run log_path st)
    as (_ & A & D & _ & _ & _ & _ & [Hnone|Hpool]).
  - destruct Hnone as (_ & -> & -> & _). split.
    + by intros ?%elem_of_nil.
    + by intros [? ?%elem_of_nil].
  - destruct Hpool as (_ & _ & -> & -> & _).
    rewrite list_elem_of_fmap. setoid_rewrite list_elem_of_filter. split.
    + intros ([[q c] reason] & -> & Hc & Hin). cbn in Hc. subst c. eauto.
    + intros (reason & Hin). by exists (p, false, reason).
Qed.

Lemma seen_paths_submseteq : map item_path (r_seen r) ⊆+ files.
Proof.
  destruct (scan_videos_shape w sched directory workers dry_run log_path st)
    as (_ & A & D & _ & _ & _ & _ & [Hnone|Hpool]).
  - destruct Hnone as (_ & -> & _). apply submseteq_nil_l.
  - destruct Hpool as (_ & _ & -> & _).
    unfold pool_results, imap_unordered.
    etrans; [apply prefix_submseteq, received_paths_prefix|].
    apply completion_order_sublist.
Qed.

Lemma sets_partition_seen :
  r_good r ++ r_corrupted r ≡ₚ map item_path (r_seen r).
Proof.
  destruct (scan_videos_shape w sched directory workers dry_run log_path st)
    as (_ & A & D & _ & _ & _ & _ & [Hnone|Hpool]).
  - by destruct Hnone as (_ & -> & -> & -> & _).
  - destruct Hpool as (_ & _ & -> & -> & -> & _). apply partition_perm.
Qed.

Lemma log_writes_run :
  log_writes log_path (run_events st r) = map item_line (r_seen r).
Proof.
  destruct (scan_videos_shape w sched directory workers dry_run log_path st)
    as (_ & A & D & Ht & _ & HD & HA & _).
  unfold run_events. rewrite Ht, drop_app_length, log_writes_app, HD, HA.
  apply app_nil_r.
Qed.

Lemma run_events_split :
  exists A D,
    run_events st r = A ++ D
    /\ removals A = []
    /\ log_writes log_path A = map item_line (r_seen r)
    /\ (removals D = [] \/ removals D = r_corrupted r).
Proof.
  destruct (scan_videos_shape w sched directory workers dry_run log_path st)
    as (_ & A & D & Ht & HrA & _ & HwA & Hcases).
  exists A, D. split_and!; try done.
  - unfold run_events. by rewrite Ht, drop_app_length.
  - destruct Hcases
      as [(_&_&_&_&->&_)
         |(_&_&_&_&_&_&[(_&->&_)|(_&_&[(_&HD&_)|(_&HD&_)])])]; auto.
Qed.

Lemma frame_outside_corrupt q :
  q ∉ r_corrupted r -> q <> log_path -> fs (r_state r) !! q = fs st !! q.
Proof.
  intros Hq Hne.
  destruct (scan_videos_shape w sched directory workers dry_run log_path st)
    as (_ & A & D & _ & _ & _ & _ & Hcases).
  destruct Hcases
    as [(_&_&_&_&_&->&_)
       |(_&_&_&_&_&_&[(_&_&Hfs)|(_&_&[(_&_&Hfs)|(_&_&Hfs)])])];
    [done|rewrite Hfs..].
  3: rewrite decide_False by done.
  all: unfold logged; by rewrite decide_False.
Qed.

(** C1: Deletion gating.  Whenever the run calls the filesystem's remove on
    a path, that path is in the corrupt set, the checker classified it as
    corrupt, and the CORRUPT record of that classification was written to
    the log earlier in the run; a path outside the corrupt set (other than
    the log itself, which the run rewrites) is left as it was. *)
Theorem deletion_gating :
  (forall t1 p ok t2,
      run_events st r = t1 ++ EvRemove p ok :: t2 ->
      p ∈ r_corrupted r
      /\ exists reason,
           value (check_video w p) = Ok (p, true, reason)
           /\ EvWrite log_path (corrupt_line reason p) ∈ t1)
  /\ (forall q, q ∉ r_corrupted r -> q <> log_path ->
                fs (r_state r) !! q = fs st !! q).
Proof.
  split; [|apply frame_outside_corrupt].
  intros t1 p ok t2 Heq.
  destruct run_events_split as (A & D & Hev & HrA & HwA & HrD).
  rewrite Hev in Heq.
  assert (Hp : p ∈ removals D).
  { assert (Hin : p ∈ removals (A ++ D)).
    { rewrite Heq. apply elem_of_removals. exists ok.
      apply elem_of_app. right. left. }
    by rewrite removals_app, HrA in Hin. }
  assert (HpC : p ∈ r_corrupted r).
  { destruct HrD as [HD|HD]; rewrite HD in Hp; [|done].
    by apply elem_of_nil in Hp. }
  split; [done|].
  apply corrupted_seen in HpC as [reason Hseen].
  exists reason. split; [by apply (seen_classified _ Hseen)|].
  destruct (app_eq_prefix A D t1 t2 (EvRemove p ok) Heq) as [k ->].
  { by apply removals_nil_not_elem. }
  apply elem_of_app. left. apply elem_of_log_writes. rewrite HwA.
  apply list_elem_of_fmap. by exists (p, true, reason).
Qed.

(** C10: Path preservation.  The checker returns the path it was given,
    so every path in the good set, in the corrupt set, behind a log record
    or handed to the remove operation is one of the discovered files. *)
Theorem path_preservation :
  (forall path x, value (check_video w path) = Ok x -> item_path x = path)
  /\ (forall p, p ∈ r_good r -> p ∈ files)
  /\ (forall p, p ∈ r_corrupted r -> p ∈ files)
  /\ (forall line, line ∈ log_writes log_path (run_events st r) ->
         exists x, line = item_line x /\ item_path x ∈ files
                   /\ value (check_video w (item_path x)) = Ok x)
  /\ (forall p, p ∈ removals (run_events st r) -> p ∈ files).
Proof.
  assert (Hcorr : forall p, p ∈ r_corrupted r -> p ∈ files).
  { intros p [reason Hin]%corrupted_seen. by apply (seen_classified _ Hin). }
  split_and!.
  - intros path x. apply check_video_path.
  - intros p [reason Hin]%good_seen. by apply (seen_classified _ Hin).
  - exact Hcorr.
  - rewrite log_writes_run. intros line (x & -> & Hin)%list_elem_of_fmap.
    exists x. split; [done|]. by apply seen_classified.
  - destruct run_events_split as (A & D & -> & HrA & _ & HrD).
    rewrite removals_app, HrA. cbn [app].
    destruct HrD as [->| ->]; [by intros p ?%elem_of_nil|exact Hcorr].
Qed.


Lemma exit_ok_all_seen :
  r_exit r = Ok tt -> map item_path (r_seen r) ≡ₚ files.
Proof.
  intros Hex.
  destruct (scan_videos_shape w sched directory workers dry_run log_path st)
    as (_ & A & D & _ & _ & _ & _ & [Hnone|Hpool]).
  - destruct Hnone as (_ & -> & _ & _ & _ & _ & _ & _ & Hraise).
    destruct (discover w directory) as [|f fs'] eqn:Hf; [done|].
    destruct Hraise as [e He]; [done|]. congruence.
  - destruct Hpool
      as (_ & [Hw _] & -> & _ & _ & _ & [((e & _ & He) & _)|(Hall & _)]);
      [congruence|].
    unfold pool_results, imap_unordered in *.
    rewrite received_paths_all.
    + apply completion_order_perm. lia.
    + by apply Forall_fmap in Hall.
Qed.









(** C8 (amended): In a dry run nothing is removed, and the only path of
    the filesystem the run changes is the log file it writes. *)
Theorem dry_run_touches_only_log q :
  dry_run = true ->
  q <> log_path ->
  removals (run_events st r) = []
  /\ fs (r_state r) !! q = fs st !! q.
Proof.
  intros Hdry Hq.
  destruct (scan_videos_shape w sched directory workers dry_run log_path st)
    as (_ & A & D & Ht & HrA & _ & _ & Hcases).
  unfold run_events. rewrite Ht, drop_app_length, removals_app, HrA. cbn [app].
  destruct Hcases
    as [(_&_&_&_&->&->&_)
       |(_&_&_&_&_&_&[(_&->&Hfs)|(_&_&[(_&->&Hfs)|(?&_)])])];
    try done; try congruence.
  all: split; [done|]; rewrite Hfs; unfold logged; by rewrite decide_False.
Qed.



End run.

(** ** Properties of the probe *)

(** C4 (amended): A probe process that finishes within a positive timeout
    and whose captured output decodes as text gives Playable when its exit
    status is zero, and otherwise Failed with the process's stderr text,
    its line ends translated to newlines and its leading and trailing
    whitespace stripped (which may leave the empty text). *)
Theorem probe_completed w path timeout dur rc out err o e :
  0 < timeout ->
  exec w (cvlc_argv path) = Exits dur rc out err ->
  Z.of_N dur <= timeout ->
  decode w out = Text o ->
  decode w err = Text e ->
  (rc = 0 -> value (vlc_can_play w path timeout) = Ok Playable)
  /\ (rc <> 0 ->
      value (vlc_can_play w path timeout)
      = Ok (Failed (strip (translate_newlines e))))
  /\ killed (vlc_can_play w path timeout) = false.
Proof.
  intros _ Hexec Hdur Hout Herr. apply Z.leb_le in Hdur.
  rewrite vlc_can_play_value. unfold vlc_can_play, subprocess_run, read_text.
  rewrite Hexec. cbn [completes_within]. rewrite Hdur, Hout, Herr. split_and!.
  - by intros ->.
  - intros Hrc. apply Z.eqb_neq in Hrc. by rewrite Hrc.
  - done.
Qed.

Lemma probe_elapsed_bound w path timeout :
  0 <= elapsed (vlc_can_play w path timeout) <= Z.max 0 timeout.
Proof.
  unfold vlc_can_play, subprocess_run.
  destruct (exec w (cvlc_argv path)) as [f|dur rc out err|]; cbn; try lia.
  destruct (Z.of_N dur <=? timeout) eqn:Hd; cbn; [|lia].
  apply Z.leb_le in Hd. lia.
Qed.

(** C5: A probe whose process is still running when the timeout expires
    (it hangs, or would take longer) has the process killed and returns the
    TimedOut outcome as a value, after exactly the timeout; whatever the
    process does, the checker's call returns within the default timeout. *)
Theorem probe_timeout w path timeout :
  (exec w (cvlc_argv path) = Hangs
   \/ exists dur rc out err,
        exec w (cvlc_argv path) = Exits dur rc out err
        /\ timeout < Z.of_N dur) ->
  value (vlc_can_play w path timeout) = Ok TimedOut
  /\ killed (vlc_can_play w path timeout) = true
  /\ elapsed (vlc_can_play w path timeout) = Z.max 0 timeout
  /\ (forall path', 0 <= elapsed (check_video w path') <= DEFAULT_TIMEOUT).
Proof.
  intros Hover.
  assert (Hbound : forall path',
             0 <= elapsed (check_video w path') <= DEFAULT_TIMEOUT).
  { intros path'. apply (probe_elapsed_bound w path' DEFAULT_TIMEOUT). }
  unfold vlc_can_play, subprocess_run.
  destruct Hover as [->|(dur & rc & out & err & -> & Hlt)]; [done|].
  cbn [completes_within].
  apply Z.leb_gt in Hlt. by rewrite Hlt.
Qed.


(** ** The scenarios, evaluated *)

Import Scenario Scenario2.

Lemma discover_abc : discover w_abc "videos" = [A_mp4; B_mov; C_mkv].
Proof. vm_compute. reflexivity. Qed.



Example strip_example :
  strip (" " +:+ TAB +:+ "a b" +:+ NL +:+ " ") = "a b".
Proof. reflexivity. Qed.

(** Section 8, first scenario: one OK record for A, CORRUPT records for B
    and C, and with [dry_run] off only B and C are removed. *)
Example scenario_abc :
  r_exit run_abc = Ok tt
  /\ log_writes LOG (run_events st_abc run_abc)
     = [corrupt_line "decoder error" B_mov; ok_line A_mp4;
        corrupt_line "timeout expired" C_mkv]
  /\ removals (run_events st_abc run_abc) = [B_mov; C_mkv]
  /\ fs (r_state run_abc) !! A_mp4 = Some "aaaa"
  /\ fs (r_state run_abc) !! B_mov = None
  /\ fs (r_state run_abc) !! C_mkv = None.
Proof. vm_compute. by split_and!. Qed.

(** C1, at the removal of B in the first scenario. *)
Lemma deletion_gating_witness :
  run_events st_abc run_abc
  = take 15 (run_events st_abc run_abc)
      ++ EvRemove B_mov true :: drop 16 (run_events st_abc run_abc)
  /\ (B_mov ∈ r_corrupted run_abc
      /\ exists reason,
           value (check_video w_abc B_mov) = Ok (B_mov, true, reason)
           /\ EvWrite LOG (corrupt_line reason B_mov)
              ∈ take 15 (run_events st_abc run_abc)).
Proof.
  assert (Heq : run_events st_abc run_abc
                = take 15 (run_events st_abc run_abc)
                    ++ EvRemove B_mov true
                    :: drop 16 (run_events st_abc run_abc))
    by (vm_compute; reflexivity).
  split; [exact Heq|].
  exact (proj1 (deletion_gating w_abc [1%nat] "videos" 2 false LOG st_abc)
               _ _ _ _ Heq).
Defined.






(** C4, where it fails: B's process exits with status 1 and the stderr
    text "decoder error" followed by a newline; the reason is that text
    without the newline.  And where A's process exits with status 0 having
    written a byte that is no text, the probe raises instead of returning
    Playable. *)
Lemma probe_completed_counterexample :
  exec w_abc (cvlc_argv B_mov) = Exits 1 1 "" ("decoder error" +:+ NL)
  /\ value (vlc_can_play w_abc B_mov 30) = Ok (Failed "decoder error")
  /\ value (vlc_can_play w_abc B_mov 30)
     <> Ok (Failed ("decoder error" +:+ NL))
  /\ exec w_binary (cvlc_argv A_mp4) = Exits 12 0 "" BAD
  /\ value (vlc_can_play w_binary A_mp4 30)
     = Raise (Exn (OtherException "UnicodeDecodeError")
                  "'utf-8' codec can't decode byte 0xff in position 0: invalid start byte")
  /\ value (vlc_can_play w_binary A_mp4 30) <> Ok Playable.
Proof. vm_compute. by split_and!. Qed.

(** C4 as amended, at the probe of B (status 1). *)
Lemma probe_completed_witness :
  (0 < 30
   /\ exec w_abc (cvlc_argv B_mov) = Exits 1 1 "" ("decoder error" +:+ NL)
   /\ Z.of_N 1 <= 30
   /\ decode w_abc "" = Text ""
   /\ decode w_abc ("decoder error" +:+ NL) = Text ("decoder error" +:+ NL))
  /\ ((1 = 0 -> value (vlc_can_play w_abc B_mov 30) = Ok Playable)
      /\ (1 <> 0 ->
          value (vlc_can_play w_abc B_mov 30)
          = Ok (Failed (strip (translate_newlines ("decoder error" +:+ NL)))))
      /\ killed (vlc_can_play w_abc B_mov 30) = false).
Proof.
  split;
    [split_and!; [lia|vm_compute; reflexivity|lia|reflexivity|reflexivity]|].
  apply (probe_completed w_abc B_mov 30 1 1 "" ("decoder error" +:+ NL)
           "" ("decoder error" +:+ NL));
    [lia|vm_compute; reflexivity|lia|reflexivity|reflexivity].
Defined.

(** C5, at the probe of C, whose process hangs. *)
Lemma probe_timeout_witness :
  (exec w_abc (cvlc_argv C_mkv) = Hangs
   \/ exists dur rc out err,
        exec w_abc (cvlc_argv C_mkv) = Exits dur rc out err /\ 30 < Z.of_N dur)
  /\ (value (vlc_can_play w_abc C_mkv 30) = Ok TimedOut
      /\ killed (vlc_can_play w_abc C_mkv 30) = true
      /\ elapsed (vlc_can_play w_abc C_mkv 30) = Z.max 0 30
      /\ forall path', 0 <= elapsed (check_video w_abc path') <= DEFAULT_TIMEOUT).
Proof.
  assert (Hover : exec w_abc (cvlc_argv C_mkv) = Hangs
                  \/ exists dur rc out err,
                       exec w_abc (cvlc_argv C_mkv) = Exits dur rc out err
                       /\ 30 < Z.of_N dur)
    by (left; vm_compute; reflexivity).
  split; [exact Hover|]. exact (probe_timeout w_abc C_mkv 30 Hover).
Defined.








(** C8, where it fails: after a dry run the log file, which held "old",
    holds the three records of the run. *)
Lemma dry_run_counterexample :
  fs st_abc !! LOG = Some "old"
  /\ fs (r_state run_abc_dry) !! LOG
     = Some (corrupt_line "decoder error" B_mov +:+ ok_line A_mp4
               +:+ corrupt_line "timeout expired" C_mkv)
  /\ fs (r_state run_abc_dry) <> fs st_abc.
Proof.
  assert (H1 : fs st_abc !! LOG = Some "old") by (vm_compute; reflexivity).
  assert (H2 : fs (r_state run_abc_dry) !! LOG
               = Some (corrupt_line "decoder error" B_mov +:+ ok_line A_mp4
                         +:+ corrupt_line "timeout expired" C_mkv))
    by (vm_compute; reflexivity).
  split_and!; [exact H1|exact H2|].
  intros Heq. rewrite Heq, H1 in H2. discriminate.
Qed.

Lemma A_not_LOG : A_mp4 <> LOG.
Proof. discriminate. Qed.

(** C8 as amended, at A in the dry run of the first scenario. *)
Lemma dry_run_touches_only_log_witness :
  (true = true /\ A_mp4 <> LOG)
  /\ (removals (run_events st_abc run_abc_dry) = []
      /\ fs (r_state run_abc_dry) !! A_mp4 = fs st_abc !! A_mp4).
Proof.
  split; [split; [reflexivity|exact A_not_LOG]|].
  apply (dry_run_touches_only_log
           w_abc [1%nat] "videos" 2 true LOG st_abc A_mp4);
    [reflexivity|exact A_not_LOG].
Defined.

Lemma discover_abc_nonempty : discover w_abc "videos" <> [].
Proof. rewrite discover_abc. discriminate. Qed.



(** C10, at B in the corrupt set of the first scenario. *)
Lemma path_preservation_witness :
  B_mov ∈ r_corrupted run_abc /\ B_mov ∈ discover w_abc "videos".
Proof.
  assert (Hin : B_mov ∈ r_corrupted run_abc) by (vm_compute; left).
  split; [exact Hin|].
  exact (proj1 (proj2 (proj2
           (path_preservation w_abc [1%nat] "videos" 2 false LOG st_abc)))
           B_mov Hin).
Defined.

(** * Beyond the claims *)

(** ** The deletion loop *)

Lemma not_elem_of_cons_bool (q p : string) (l : list string) :
  bool_decide (q <> p) && bool_decide (q ∉ l) = bool_decide (q ∉ p :: l).
Proof.
  apply eq_true_iff_eq. rewrite andb_true_iff.
  rewrite !bool_decide_eq_true, not_elem_of_cons. tauto.
Qed.

Lemma deletion_events_ext w present present' l :
  (forall p, p ∈ l -> remove_refused w p = None -> present p = present' p) ->
  deletion_events w present l = deletion_events w present' l.
Proof.
  intros Hext. unfold deletion_events. f_equal. apply imap_ext.
  intros i p Hp. cbn. unfold removal_outcome.
  destruct (remove_refused w p) eqn:Href; [done|].
  rewrite Hext; [done| |done]. by eapply list_elem_of_lookup_2.
Qed.

Lemma deletion_events_cons w present p l :
  deletion_events w present (p :: l)
  = removal_report p (removal_outcome w present [] 0 p)
      ++ deletion_events w (fun q => present q && bool_decide (q <> p)) l.
Proof.
  unfold deletion_events. rewrite imap_cons. cbn [mjoin list_join].
  f_equal. f_equal. apply imap_ext. intros i q _. cbn.
  unfold removal_outcome. destruct (remove_refused w q); [done|].
  cbn [take]. by rewrite <- andb_assoc, not_elem_of_cons_bool.
Qed.

Lemma removals_deletion_events w present l :
  removals (deletion_events w present l) = l.
Proof.
  revert present. induction l as [|p l IH]; intros present; [done|].
  rewrite deletion_events_cons, removals_app, IH. reflexivity.
Qed.

Lemma log_writes_deletion_events w lp present l :
  log_writes lp (deletion_events w present l) = [].
Proof.
  revert present. induction l as [|p l IH]; intros present; [done|].
  rewrite deletion_events_cons, log_writes_app, IH. reflexivity.
Qed.

Lemma delete_all_trace w corrupted st :
  trace (delete_all w corrupted st)
  = trace st
      ++ deletion_events w (fun p => bool_decide (is_Some (fs st !! p)))
           corrupted.
Proof.
  revert st. induction corrupted as [|file rest IH]; intros st.
  - cbn. by rewrite app_nil_r.
  - rewrite deletion_events_cons. cbn [delete_all].
    unfold os_remove, removal_outcome.
    destruct (remove_refused w file) as [e|] eqn:Href;
      [|destruct (fs st !! file) as [c|] eqn:Hfile].
    + rewrite IH. unfold print. rewrite !trace_emit. cbn [trace fs].
      rewrite <- !app_assoc.
      f_equal. cbn [removal_report app is_ok]. do 2 f_equal.
      apply deletion_events_ext. intros q _ Hq. unfold emit; cbn [fs].
      destruct (decide (q = file)) as [->|Hne]; [congruence|].
      by rewrite (bool_decide_true (q <> file)), andb_true_r.
    + rewrite IH. unfold print. rewrite !trace_emit. cbn [trace fs].
      rewrite bool_decide_true by eauto. rewrite <- !app_assoc.
      f_equal. cbn [removal_report app andb take is_ok].
      rewrite bool_decide_true by (by intros ?%elem_of_nil).
      cbn [is_ok]. do 2 f_equal.
      apply deletion_events_ext. intros q _ _. unfold emit; cbn [fs].
      destruct (decide (q = file)) as [->|Hne].
      * rewrite lookup_delete_eq, (bool_decide_false (file <> file)) by tauto.
        rewrite andb_false_r. apply bool_decide_false. by intros [? ?].
      * rewrite lookup_delete_ne by done.
        by rewrite (bool_decide_true (q <> file)), andb_true_r.
    + rewrite IH. unfold print. rewrite !trace_emit. cbn [trace fs exn_msg].
      rewrite bool_decide_false by (by intros [? ?]).
      rewrite <- !app_assoc.
      f_equal. cbn [removal_report app andb is_ok exn_msg]. do 2 f_equal.
      apply deletion_events_ext. intros q _ _. unfold emit; cbn [fs].
      destruct (decide (q = file)) as [->|Hne].
      * rewrite Hfile. rewrite (bool_decide_false (is_Some None)); [done|].
        by intros [? ?].
      * by rewrite (bool_decide_true (q <> file)), andb_true_r.
Qed.

(** X1: the deletion loop isolates failures.  Every listed path gets
    exactly one call of [os.remove], in list order, each followed by the
    line that reports it: "Deleted" when the call succeeds, and otherwise
    "Could not delete" with the text of the exception.  A call succeeds
    exactly when the host does not refuse it, its path exists as the loop
    starts and was not listed before; a failure does not stop the loop.
    Afterwards a listed path does not exist unless the host refused its
    removal, in which case it is as it was, as is every path not listed. *)
Theorem deletion_loop_isolates_failures w corrupted st :
  trace (delete_all w corrupted st)
  = trace st
      ++ deletion_events w (fun p => bool_decide (is_Some (fs st !! p)))
           corrupted
  /\ removals (deletion_events w
                 (fun p => bool_decide (is_Some (fs st !! p))) corrupted)
     = corrupted
  /\ (forall p, p ∈ corrupted -> remove_refused w p = None ->
                fs (delete_all w corrupted st) !! p = None)
  /\ (forall p, p ∈ corrupted -> is_Some (remove_refused w p) ->
                fs (delete_all w corrupted st) !! p = fs st !! p)
  /\ (forall p, p ∉ corrupted ->
                fs (delete_all w corrupted st) !! p = fs st !! p).
Proof.
  destruct (delete_all_spec w corrupted st) as (_ & _ & _ & _ & Hfs).
  split_and!.
  - apply delete_all_trace.
  - apply removals_deletion_events.
  - intros p Hp Href. rewrite Hfs, Href. by rewrite decide_True.
  - intros p Hp [e Href]. rewrite Hfs, Href. by rewrite decide_True.
  - intros p Hp. rewrite Hfs. by rewrite decide_False.
Qed.

(** ** The events of a run that started its pool *)

Lemma drop_eq_app {A} (l t X : list A) :
  t = l ++ X -> drop (length l) t = X.
Proof. intros ->. apply drop_app_length. Qed.

Local Ltac norm_app :=
  repeat first [rewrite <- app_assoc | rewrite <- app_comm_cons
               | rewrite app_nil_r | rewrite app_nil_l].

Lemma scan_videos_events w sched directory workers dry_run lp st :
  discover w directory <> [] ->
  1 <= workers ->
  open_refused w lp = None ->
  run_events st (scan_videos w sched directory workers dry_run lp st)
  = header_events (length (discover w directory)) workers lp
      ++ (r_seen (scan_videos w sched directory workers dry_run lp st)
            ≫= item_events lp)
      ++ EvClose lp
      :: match r_exit (scan_videos w sched directory workers dry_run lp st) with
         | Raise _ => []
         | Ok _ =>
             summary_events
               (r_good (scan_videos w sched directory workers dry_run lp st))
               (r_corrupted (scan_videos w sched directory workers dry_run lp st))
               lp
             ++ closing_events w dry_run
                  (fun p => bool_decide (is_Some
                     (logged lp
                        (r_seen (scan_videos w sched directory workers
                                   dry_run lp st)) st p)))
                  (r_corrupted (scan_videos w sched directory workers
                                  dry_run lp st))
         end.
Proof.
  intros Hne Hw Hopen. apply drop_eq_app. unfold scan_videos.
  destruct (discover w directory) as [|f0 files'] eqn:Hfiles; [done|].
  rewrite <- Hfiles. clear Hne.
  apply Z.ltb_ge in Hw. rewrite Hw. unfold open_w. rewrite Hopen. cbv zeta.
  set (rs := pool_results w sched workers (discover w directory)).
  set (hdr := ("Scanning " +:+ _)%string).
  set (a := aggregate lp rs [] [] [] _).
  assert (Hseen : a_seen a = received rs) by apply aggregate_seen.
  assert (Htr : trace (a_state a)
                = trace st ++ [EvPrint hdr; EvSleep; EvOpenW lp]
                    ++ (a_seen a ≫= item_events lp)).
  { rewrite Hseen. unfold a. rewrite aggregate_trace. cbn.
    by rewrite <- !app_assoc. }
  assert (Hfs : forall p, fs (a_state a) !! p = logged lp (a_seen a) st p).
  { intros p. rewrite Hseen.
    apply (aggregate_fs_logged lp rs (sleep (print hdr st)) p). }
  clearbody a.
  unfold header_events, summary_events, closing_events. fold hdr.
  destruct (a_exit a) as [[]|e] eqn:Hex;
    cbn [r_files r_seen r_good r_corrupted r_exit r_state].
  2:{ unfold close. rewrite trace_emit, Htr. by norm_app. }
  set (st4 := print ("Log written to:   " +:+ lp) _).
  assert (Htr4 : trace st4
                 = trace st ++ [EvPrint hdr; EvSleep; EvOpenW lp]
                     ++ (a_seen a ≫= item_events lp)
                     ++ EvClose lp
                     :: [EvPrint (NL +:+ "=== Scan Complete ===");
                         EvPrint ("Good videos:     "
                                    +:+ pretty (length (a_good a)));
                         EvPrint ("Corrupted videos: "
                                    +:+ pretty (length (a_corrupted a)));
                         EvPrint ("Log written to:   " +:+ lp)]).
  { unfold st4, print, close. rewrite !trace_emit, Htr. by norm_app. }
  assert (Hfs4 : fs st4 = fs (a_state a)) by reflexivity.
  clearbody st4.
  destruct dry_run; cbn [negb].
  - assert (Hsame : match a_corrupted a with [] => st4 | _ :: _ => st4 end = st4)
      by (by destruct (a_corrupted a)).
    rewrite Hsame. unfold print. rewrite trace_emit, Htr4.
    destruct (a_corrupted a); by norm_app.
  - destruct (a_corrupted a) as [|c cs] eqn:Hcs.
    + rewrite Htr4. by norm_app.
    + rewrite delete_all_trace. unfold print. rewrite trace_emit, Htr4.
      rewrite (deletion_events_ext w _
                 (fun p => bool_decide (is_Some (logged lp (a_seen a) st p)))).
      2:{ intros p _ _. by rewrite fs_emit, Hfs4, Hfs. }
      by norm_app.
Qed.

(** ** The checker against the behaviour of the process *)

Lemma received_classification w (order : list string) :
  Forall (fun p => is_ok (value (check_video w p)) = true) order ->
  received (map (fun p => value (check_video w p)) order)
  = map (classification w) order.
Proof.
  induction 1 as [|p order Hp _ IH]; [done|]. cbn [map received].
  destruct (value (check_video w p)) as [x|e] eqn:Hx; [|discriminate].
  by rewrite IH, (check_video_classification _ _ _ Hx).
Qed.

Lemma filter_classification_good w (l : list string) :
  map item_path (filter (fun x => item_corrupt x = false)
                        (map (classification w) l))
  = filter (fun p => plays w p = true) l.
Proof.
  induction l as [|p l IH]; [done|]. cbn [map].
  destruct (plays w p) eqn:Hp.
  - rewrite filter_cons_True by (cbn; by rewrite Hp).
    rewrite (filter_cons_True (fun p => plays w p = true)) by done.
    cbn [map]. by rewrite IH.
  - rewrite filter_cons_False by (cbn; by rewrite Hp).
    rewrite (filter_cons_False (fun p => plays w p = true)) by congruence.
    done.
Qed.

Lemma filter_classification_corrupt w (l : list string) :
  map item_path (filter (fun x => item_corrupt x = true)
                        (map (classification w) l))
  = filter (fun p => plays w p = false) l.
Proof.
  induction l as [|p l IH]; [done|]. cbn [map].
  destruct (plays w p) eqn:Hp.
  - rewrite filter_cons_False by (cbn; by rewrite Hp).
    rewrite (filter_cons_False (fun p => plays w p = false)) by congruence.
    done.
  - rewrite filter_cons_True by (cbn; by rewrite Hp).
    rewrite (filter_cons_True (fun p => plays w p = false)) by done.
    cbn [map]. by rewrite IH.
Qed.

Lemma plays_true_iff w p :
  plays w p = true
  <-> exists dur out err,
        exec w (cvlc_argv p) = Exits dur 0 out err
        /\ Z.of_N dur <= DEFAULT_TIMEOUT.
Proof.
  unfold plays.
  destruct (exec w (cvlc_argv p)) as [f|dur rc out err|].
  - split; [discriminate|]. by intros (? & ? & ? & ? & _).
  - rewrite andb_true_iff, Z.leb_le, Z.eqb_eq. split.
    + intros [Hd ->]. eauto.
    + intros (? & ? & ? & [= <- <- _ _] & Hd). done.
  - split; [discriminate|]. by intros (? & ? & ? & ? & _).
Qed.

(** ** Discovery *)

Lemma VIDEO_EXTS_spec (s : string) :
  s ∈ VIDEO_EXTS
  <-> s ∈ [".mp4"; ".mov"; ".avi"; ".wmv"; ".mkv"; ".flv"; ".mpeg"; ".mpg";
           ".3gp"].
Proof.
  unfold VIDEO_EXTS. rewrite !elem_of_union, !elem_of_singleton.
  rewrite !elem_of_cons, elem_of_nil. tauto.
Qed.

Lemma elem_of_discover w directory p :
  p ∈ discover w directory
  <-> p ∈ rglob w directory /\ suffix_lower w p ∈ VIDEO_EXTS.
Proof. unfold discover. rewrite list_elem_of_filter. tauto. Qed.

Lemma discover_nil w directory :
  Forall (fun p => suffix_lower w p ∉ VIDEO_EXTS) (rglob w directory) ->
  discover w directory = [].
Proof.
  unfold discover. induction 1 as [|p l Hp _ IH]; [done|].
  by rewrite filter_cons_False.
Qed.

(** ** Facts about the parts of the output *)

Lemma prints_app t1 t2 : prints (t1 ++ t2) = prints t1 ++ prints t2.
Proof. apply omap_app. Qed.

Lemma prints_item_events lp xs :
  prints (xs ≫= item_events lp) = map item_line xs.
Proof.
  induction xs as [|x xs IH]; [done|].
  rewrite bind_cons, prints_app, IH.
  unfold item_events. by destruct (item_corrupt x).
Qed.

Lemma deletion_events_kinds w present l e :
  e ∈ deletion_events w present l ->
  (exists s, e = EvPrint s) \/ (exists p ok, e = EvRemove p ok).
Proof.
  revert present. induction l as [|p l IH]; intros present.
  - by intros ?%elem_of_nil.
  - rewrite deletion_events_cons. intros [He|He]%elem_of_app; [|by eapply IH].
    unfold removal_report in He.
    apply elem_of_cons in He as [->|He]; [eauto|].
    apply list_elem_of_singleton in He as ->. eauto.
Qed.

Lemma closing_events_kinds w dry_run present l e :
  e ∈ closing_events w dry_run present l ->
  (exists s, e = EvPrint s) \/ (exists p ok, e = EvRemove p ok).
Proof.
  unfold closing_events. intros [He|He]%elem_of_app.
  - destruct l as [|c cs]; [by apply elem_of_nil in He|].
    destruct dry_run; [by apply elem_of_nil in He|].
    apply elem_of_cons in He as [->|He]; [eauto|].
    by eapply deletion_events_kinds.
  - destruct dry_run; [|by apply elem_of_nil in He].
    apply list_elem_of_singleton in He as ->. eauto.
Qed.

Lemma summary_events_kinds good corrupted lp e :
  e ∈ summary_events good corrupted lp -> exists s, e = EvPrint s.
Proof.
  unfold summary_events. rewrite !elem_of_cons, elem_of_nil.
  intros [->|[->|[->|[->|[]]]]]; eauto.
Qed.

Lemma removals_closing_events w dry_run present l :
  removals (closing_events w dry_run present l) = if dry_run then [] else l.
Proof.
  unfold closing_events. rewrite removals_app.
  destruct l as [|c cs], dry_run; try reflexivity.
  change (removals (EvPrint _ :: deletion_events w present (c :: cs)))
    with (removals (deletion_events w present (c :: cs))).
  rewrite removals_deletion_events. by rewrite app_nil_r.
Qed.

Lemma log_writes_kinds lp t :
  (forall e, e ∈ t ->
     (exists s, e = EvPrint s) \/ (exists p ok, e = EvRemove p ok)) ->
  log_writes lp t = [].
Proof.
  induction t as [|e t IH]; intros Hk; [done|].
  assert (Hnil : log_writes lp t = [])
    by (apply IH; intros e' He'; apply Hk; by right).
  destruct (Hk e) as [[s ->]|(p & ok & ->)]; [left|..]; exact Hnil.
Qed.

(** ** More properties of a run *)

Section beyond.
Variables (w : World) (sched : schedule) (directory : string) (workers : Z)
          (dry_run : bool) (log_path : string) (st : State).

Local Abbreviation r := (scan_videos w sched directory workers dry_run log_path st).
Local Abbreviation files := (discover w directory).

(** X2: a directory without candidates.  When no listed path has one of
    the video suffixes, the run prints "No video files found." and returns
    normally without any file operation: the log is not opened, so a log
    left by an earlier run is not truncated, and the filesystem is
    unchanged. *)
Theorem no_candidates_no_effects :
  Forall (fun p => suffix_lower w p ∉ VIDEO_EXTS) (rglob w directory) ->
  r_exit r = Ok tt
  /\ run_events st r = [EvPrint "No video files found."]
  /\ fs (r_state r) = fs st
  /\ r_seen r = [] /\ r_good r = [] /\ r_corrupted r = [].
Proof.
  intros Hnone%discover_nil.
  unfold run_events, scan_videos. rewrite Hnone. cbn.
  by rewrite drop_app_length.
Qed.

(** X3: a worker count below one.  With candidates found, the pool's
    constructor raises ValueError after the "Scanning" line and the pause
    and before the log is opened: nothing is classified, no file operation
    takes place and the filesystem, an earlier log included, is unchanged. *)
Theorem invalid_worker_count_raises_before_log :
  files <> [] ->
  workers < 1 ->
  r_exit r = Raise (Exn ValueError "Number of processes must be at least 1")
  /\ run_events st r
     = [EvPrint ("Scanning " +:+ pretty (length files)
                   +:+ " video files using " +:+ pretty workers
                   +:+ " workers...");
        EvSleep]
  /\ fs (r_state r) = fs st
  /\ r_seen r = [] /\ r_good r = [] /\ r_corrupted r = [].
Proof.
  intros Hne Hw. apply Z.ltb_lt in Hw.
  unfold run_events, scan_videos.
  destruct (discover w directory) as [|f0 files'] eqn:Hfiles; [done|].
  rewrite Hw. cbn. rewrite <- !app_assoc. by rewrite drop_app_length.
Qed.

(** X4: candidates are chosen by suffix alone.  The candidates are the
    listed paths whose lower-cased suffix is one of the nine of
    [VIDEO_EXTS], in listing order; a path with any other suffix is never
    classified, logged or handed to [os.remove], and unless it is the log
    path it keeps its content. *)
Theorem only_video_suffixes_are_candidates :
  (forall p, p ∈ files
             <-> p ∈ rglob w directory
                 /\ suffix_lower w p
                    ∈ [".mp4"; ".mov"; ".avi"; ".wmv"; ".mkv"; ".flv";
                       ".mpeg"; ".mpg"; ".3gp"])
  /\ files `sublist_of` rglob w directory
  /\ (forall p, suffix_lower w p ∉ VIDEO_EXTS ->
        (p ∉ map item_path (r_seen r))
        /\ (p ∉ r_good r) /\ (p ∉ r_corrupted r)
        /\ (p ∉ removals (run_events st r))
        /\ (p <> log_path -> fs (r_state r) !! p = fs st !! p)).
Proof.
  split_and!.
  - intros p. rewrite elem_of_discover, VIDEO_EXTS_spec. tauto.
  - apply sublist_filter.
  - intros p Hp.
    assert (Hnot : p ∉ files) by (rewrite elem_of_discover; tauto).
    assert (Hcorr : p ∉ r_corrupted r).
    { intros [reason Hin]%corrupted_seen.
      by apply seen_classified in Hin as [Hin _]. }
    split_and!; try done.
    + intros Hin. apply Hnot.
      by eapply elem_of_submseteq, seen_paths_submseteq.
    + intros [reason Hin]%good_seen.
      by apply seen_classified in Hin as [Hin _].
    + destruct (run_events_split w sched directory workers dry_run log_path st)
        as (A & D & -> & HrA & _ & HrD).
      rewrite removals_app, HrA. cbn [app].
      destruct HrD as [->| ->]; [by intros ?%elem_of_nil|done].
    + intros Hne. by apply frame_outside_corrupt.
Qed.

(** X5: a real run hands exactly the corrupt set to the removal.  When
    [dry_run] is off and the run returns normally, the paths handed to
    [os.remove] are the corrupt set, each once and in the order the results
    arrived.  Afterwards a corrupt path whose removal the host does not
    refuse does not exist, whether it was removed or was already gone; one
    whose removal the host refuses is still there, as it was. *)
Theorem real_run_removes_exactly_corrupt :
  dry_run = false ->
  r_exit r = Ok tt ->
  removals (run_events st r) = r_corrupted r
  /\ (forall p, p ∈ r_corrupted r -> remove_refused w p = None ->
        fs (r_state r) !! p = None)
  /\ (forall p, p ∈ r_corrupted r -> is_Some (remove_refused w p) ->
        p <> log_path -> fs (r_state r) !! p = fs st !! p).
Proof.
  intros Hdry Hex.
  destruct (scan_videos_shape w sched directory workers dry_run log_path st)
    as (_ & A & D & Ht & HrA & _ & _ & Hcases).
  unfold run_events. rewrite Ht, drop_app_length, removals_app, HrA. cbn [app].
  destruct Hcases
    as [(_&_&_&->&->&_)
       |(_&_&_&_&_&_&[((e&_&He)&_)|(_&_&[([?|Hnil]&->&_)|(_&->&Hfs)])])].
  - split_and!; [done|by intros p ?%elem_of_nil..].
  - congruence.
  - congruence.
  - rewrite Hnil. split_and!; [done|by intros p ?%elem_of_nil..].
  - split_and!; [done|..].
    + intros p Hp Href. rewrite Hfs, Href. by rewrite decide_True.
    + intros p Hp [e Href] Hne. rewrite Hfs, Href. rewrite decide_True by done.
      unfold logged. by rewrite decide_False.
Qed.

Lemma corrupted_not_plays q : q ∈ r_corrupted r -> plays w q = false.
Proof.
  intros [reason Hin]%corrupted_seen.
  apply seen_classified in Hin as [_ Hcv].
  apply check_video_classification in Hcv.
  apply (f_equal item_corrupt) in Hcv. cbn in Hcv. by destruct (plays w q).
Qed.

Lemma good_plays q : q ∈ r_good r -> plays w q = true.
Proof.
  intros [reason Hin]%good_seen.
  apply seen_classified in Hin as [_ Hcv].
  apply check_video_classification in Hcv.
  apply (f_equal item_corrupt) in Hcv. cbn in Hcv. by destruct (plays w q).
Qed.

(** X6: the sets agree with the probes.  A path is put in the good set only
    if its process exited with status 0 within the 30 s default timeout, and
    in the corrupt set only if it did not; so no path is in both sets. *)
Theorem sets_agree_with_probe :
  (forall q, q ∈ r_good r -> plays w q = true)
  /\ (forall q, q ∈ r_corrupted r -> plays w q = false)
  /\ (forall q, q ∈ r_good r -> q ∉ r_corrupted r).
Proof.
  split_and!.
  - apply good_plays.
  - apply corrupted_not_plays.
  - intros q Hg%good_plays Hc%corrupted_not_plays. congruence.
Qed.

(** X7: a playable file is kept.  A file whose process exits with status 0
    within the default timeout is never in the corrupt set and never handed
    to [os.remove], whatever other probes do, in whatever order they finish
    and whether or not the run is a dry one; unless it is the log path, its
    content after the run is its content before. *)
Theorem playable_file_is_kept p :
  plays w p = true ->
  (p ∉ r_corrupted r)
  /\ (p ∉ removals (run_events st r))
  /\ (p <> log_path -> fs (r_state r) !! p = fs st !! p).
Proof.
  intros Hp.
  assert (Hcorr : p ∉ r_corrupted r).
  { intros Hc%corrupted_not_plays. congruence. }
  split_and!; [done| |].
  - destruct (run_events_split w sched directory workers dry_run log_path st)
      as (A & D & -> & HrA & _ & HrD).
    rewrite removals_app, HrA. cbn [app].
    destruct HrD as [->| ->]; [by intros ?%elem_of_nil|done].
  - intros Hne. by apply frame_outside_corrupt.
Qed.

Lemma pool_results_order :
  pool_results w sched workers files
  = map (fun p => value (check_video w p))
        (completion_order (Z.to_nat workers) sched files (length files)).
Proof. reflexivity. Qed.



(** X9: one worker probes in listing order.  With a single worker the
    results arrive in the order of the file list, whatever the schedule:
    the files handled are a prefix of the list, and when the run returns
    normally the results, the good set, the corrupt set and the log
    records are those of the whole list, in its order. *)
Theorem one_worker_is_sequential :
  workers = 1 ->
  map item_path (r_seen r) `prefix_of` files
  /\ (r_exit r = Ok tt ->
      r_seen r = map (classification w) files
      /\ r_good r = filter (fun p => plays w p = true) files
      /\ r_corrupted r = filter (fun p => plays w p = false) files
      /\ log_writes log_path (run_events st r)
         = map (fun p => item_line (classification w p)) files).
Proof.
  intros Hone.
  destruct (scan_videos_shape w sched directory workers dry_run log_path st)
    as (_ & A & D & _ & _ & _ & _ & [Hnone|Hpool]).
  - destruct Hnone
      as ([Hf|[?|(_ & e & _ & He)]] & Hs & Hg & Hc & _); [|lia|].
    + rewrite log_writes_run, Hs, Hg, Hc, Hf. split; [done|]. by intros _.
    + rewrite Hs. split; [apply prefix_nil|]. congruence.
  - destruct Hpool as (_ & _ & Hs & Hg & Hc & _ & Hexit).
    rewrite log_writes_run, Hs, Hg, Hc, pool_results_order, Hone.
    change (Z.to_nat 1) with 1%nat. rewrite completion_order_sequential.
    split; [apply received_paths_prefix|].
    intros Hex.
    destruct Hexit as [((e & _ & He) & _)|(Hall & _)]; [congruence|].
    rewrite pool_results_order, Hone in Hall.
    change (Z.to_nat 1) with 1%nat in Hall.
    rewrite completion_order_sequential in Hall.
    apply Forall_fmap in Hall.
    rewrite (received_classification w _ Hall).
    rewrite filter_classification_good, filter_classification_corrupt.
    split_and!; try done. by rewrite <- list_fmap_compose.
Qed.

Lemma pool_run_events :
  files <> [] ->
  1 <= workers ->
  open_refused w log_path = None ->
  exists after,
    run_events st r
    = header_events (length files) workers log_path
        ++ (r_seen r ≫= item_events log_path) ++ EvClose log_path :: after
    /\ (forall e, r_exit r = Raise e -> after = [])
    /\ (forall e, e ∈ after ->
          (exists s, e = EvPrint s) \/ (exists p ok, e = EvRemove p ok))
    /\ (removals after = []
        \/ (dry_run = false /\ r_exit r = Ok tt)).
Proof.
  intros Hne Hw Hopen.
  pose proof (scan_videos_events w sched directory workers dry_run log_path st
                Hne Hw Hopen) as Hev.
  destruct (r_exit r) as [u|e] eqn:Hex.
  - eexists. split; [exact Hev|]. split_and!.
    + discriminate.
    + intros e [He|He]%elem_of_app.
      * left. by eapply summary_events_kinds.
      * by eapply closing_events_kinds.
    + destruct dry_run eqn:Hdry.
      * left. rewrite removals_app, removals_closing_events. reflexivity.
      * right. by destruct u.
  - exists []. split; [exact Hev|]. split_and!; try done.
    + by intros e' ?%elem_of_nil.
    + by left.
Qed.

(** How a run gets to start its pool and open its log. *)
Lemma pool_started_cases :
  (files <> [] /\ 1 <= workers /\ open_refused w log_path = None)
  \/ (r_seen r = [] /\ r_good r = [] /\ r_corrupted r = []
      /\ removals (run_events st r) = []
      /\ (files <> [] -> exists e, r_exit r = Raise e)).
Proof.
  destruct (scan_videos_shape w sched directory workers dry_run log_path st)
    as (_ & A & D & Ht & HrA & _ & _ & [Hnone|Hp]).
  - right. destruct Hnone as (_ & ? & ? & ? & -> & _ & _ & _ & ?).
    split_and!; try done.
    unfold run_events. by rewrite Ht, drop_app_length, app_nil_r.
  - left. by destruct Hp as (? & [? ?] & _).
Qed.


(** X11: removal waits for the whole classification.  Whenever a run calls
    [os.remove], [dry_run] is off, the loop has ended without an exception
    with every discovered file classified, and before that first call the
    log has received all its records and has been closed; nothing is
    written to the log afterwards. *)
Theorem removal_only_after_log_closed t1 p ok t2 :
  run_events st r = t1 ++ EvRemove p ok :: t2 ->
  dry_run = false
  /\ r_exit r = Ok tt
  /\ map item_path (r_seen r) ≡ₚ files
  /\ EvClose log_path ∈ t1
  /\ log_writes log_path t1 = map item_line (r_seen r)
  /\ log_writes log_path t2 = [].
Proof.
  intros Heq.
  assert (Hrem : p ∈ removals (run_events st r)).
  { rewrite Heq. apply elem_of_removals. exists ok.
    apply elem_of_app. right. left. }
  assert (Hpool : files <> [] /\ 1 <= workers
                  /\ open_refused w log_path = None).
  { destruct pool_started_cases as [?|(_ & _ & _ & Hnil & _)]; [done|].
    rewrite Hnil in Hrem. by apply elem_of_nil in Hrem. }
  destruct Hpool as (Hne & Hw & Hopen).
  destruct (pool_run_events Hne Hw Hopen)
    as (after & Hev & _ & Hkinds & Hafter).
  set (pre := header_events (length files) workers log_path
                ++ (r_seen r ≫= item_events log_path) ++ [EvClose log_path]).
  assert (Hev' : run_events st r = pre ++ after).
  { rewrite Hev. unfold pre. by rewrite <- !app_assoc. }
  assert (Hpre_rem : removals pre = []).
  { unfold pre. rewrite !removals_app, removals_item_events. reflexivity. }
  assert (Hpre_log : log_writes log_path pre = map item_line (r_seen r)).
  { unfold pre. rewrite !log_writes_app, log_writes_item_events.
    unfold header_events, log_writes. cbn. by rewrite app_nil_r. }
  assert (Hafter_log : log_writes log_path after = [])
    by (by apply log_writes_kinds).
  rewrite Hev' in Heq.
  destruct (app_eq_prefix pre after t1 t2 (EvRemove p ok) Heq) as [k ->].
  { by apply removals_nil_not_elem. }
  rewrite <- app_assoc in Heq. apply app_inv_head in Heq.
  rewrite Heq in Hafter_log, Hafter.
  rewrite log_writes_app in Hafter_log.
  apply app_eq_nil in Hafter_log as [Hk Ht2].
  assert (Hok : dry_run = false /\ r_exit r = Ok tt).
  { destruct Hafter as [Hnil|?]; [|done].
    rewrite removals_app in Hnil. apply app_eq_nil in Hnil as [_ Hnil].
    discriminate. }
  destruct Hok as [Hdry Hex].
  split_and!; try done.
  - by apply exit_ok_all_seen.
  - apply elem_of_app. left. unfold pre.
    rewrite !elem_of_app. right. right. left.
  - by rewrite log_writes_app, Hpre_log, Hk, app_nil_r.
Qed.

(** X12: the console of a run that returns normally.  After the
    "Scanning" line the console shows one line per result, the same text
    as its log record, then the four summary lines, whose two counts are
    the sizes of the good and the corrupt set and add up to the number of
    discovered files, then the lines of the deletion stage: "Deleted" for
    each removal that succeeds and "Could not delete" with the text of the
    exception for each one that fails; in a dry run that stage is the
    single line "Dry run mode: No files deleted.". *)
Theorem console_of_a_normal_run :
  files <> [] ->
  r_exit r = Ok tt ->
  prints (run_events st r)
  = ["Scanning " +:+ pretty (length files) +:+ " video files using "
       +:+ pretty workers +:+ " workers..."]
      ++ log_writes log_path (run_events st r)
      ++ [NL +:+ "=== Scan Complete ===";
          "Good videos:     " +:+ pretty (length (r_good r));
          "Corrupted videos: " +:+ pretty (length (r_corrupted r));
          "Log written to:   " +:+ log_path]
      ++ prints (closing_events w dry_run
                   (fun p => bool_decide (is_Some
                      (logged log_path (r_seen r) st p)))
                   (r_corrupted r))
  /\ (length (r_good r) + length (r_corrupted r) = length files)%nat
  /\ (dry_run = true ->
      forall present,
        prints (closing_events w dry_run present (r_corrupted r))
        = [NL +:+ "Dry run mode: No files deleted."]).
Proof.
  intros Hne Hex.
  assert (Hpool : 1 <= workers /\ open_refused w log_path = None).
  { destruct pool_started_cases as [(_ & ? & ?)|(_ & _ & _ & _ & Hraise)];
      [done|].
    destruct (Hraise Hne) as [e He]. congruence. }
  destruct Hpool as [Hw Hopen].
  split_and!.
  - rewrite log_writes_run.
    rewrite (scan_videos_events w sched directory workers dry_run log_path st
               Hne Hw Hopen), Hex.
    rewrite !prints_app, prints_item_events.
    change (EvClose log_path :: ?x) with ([EvClose log_path] ++ x).
    rewrite !prints_app. reflexivity.
  - rewrite <- length_app.
    rewrite (sets_partition_seen w sched directory workers dry_run log_path st).
    rewrite (exit_ok_all_seen w sched directory workers dry_run log_path st Hex).
    done.
  - intros -> present. unfold closing_events.
    by destruct (r_corrupted _).
Qed.

Lemma removals_run :
  removals (run_events st r)
  = if dry_run then []
    else match r_exit r with Ok _ => r_corrupted r | Raise _ => [] end.
Proof.
  destruct (scan_videos_shape w sched directory workers dry_run log_path st)
    as (_ & A & D & Ht & HrA & _ & _ & Hcases).
  unfold run_events. rewrite Ht, drop_app_length, removals_app, HrA. cbn [app].
  destruct Hcases
    as [(_&_&_&Hc&HD&_)
       |(_&_&_&_&_&_&[((e&_&He)&HD&_)|(_&He&[([Hd|Hnil]&HD&_)|(Hd&HD&_)])])].
  - rewrite HD, Hc. destruct (r_exit r); by destruct dry_run.
  - rewrite HD, He. by destruct dry_run.
  - rewrite HD, Hd. done.
  - rewrite HD, Hnil, He. by destruct dry_run.
  - rewrite HD, He. by destruct dry_run.
Qed.


Lemma corrupt_removed p :
  dry_run = false ->
  r_exit r = Ok tt ->
  p ∈ r_corrupted r ->
  remove_refused w p = None ->
  fs (r_state r) !! p = None.
Proof.
  intros Hdry Hex Hp Href.
  destruct (scan_videos_shape w sched directory workers dry_run log_path st)
    as (_ & A & D & _ & _ & _ & _ & Hcases).
  destruct Hcases
    as [(_&_&_&Hc&_)
       |(_&_&_&_&_&_&[((e&_&He)&_)|(_&_&[([?|Hnil]&_)|(_&_&Hfs)])])].
  - rewrite Hc in Hp. by apply elem_of_nil in Hp.
  - congruence.
  - congruence.
  - rewrite Hnil in Hp. by apply elem_of_nil in Hp.
  - rewrite Hfs, Href. by rewrite decide_True.
Qed.


(** X18: an unplayable file is handed to the removal.  In a run with
    [dry_run] off that returns normally, every discovered file whose
    process does not exit with status 0 within the default 30 s (it fails,
    it hangs, it plays for longer, or [cvlc] is missing) is in the corrupt
    set and is handed to [os.remove]; unless the host refuses the removal,
    it does not exist afterwards. *)
Theorem unplayable_file_is_removed p :
  dry_run = false ->
  r_exit r = Ok tt ->
  p ∈ files ->
  ~ (exists dur out err,
       exec w (cvlc_argv p) = Exits dur 0 out err
       /\ Z.of_N dur <= DEFAULT_TIMEOUT) ->
  p ∈ r_corrupted r
  /\ p ∈ removals (run_events st r)
  /\ (remove_refused w p = None -> fs (r_state r) !! p = None).
Proof.
  intros Hdry Hex Hp Hbad.
  assert (Hplays : plays w p = false).
  { destruct (plays w p) eqn:Hpl; [|done]. by apply plays_true_iff in Hpl. }
  assert (Hcorr : p ∈ r_corrupted r).
  { assert (Hin : p ∈ map item_path (r_seen r))
      by (by rewrite (exit_ok_all_seen w sched directory workers dry_run
                        log_path st Hex)).
    apply list_elem_of_fmap in Hin as (x & Hpx & Hin).
    pose proof (seen_classified w sched directory workers dry_run log_path st
                  x Hin) as [_ Hcv].
    rewrite <- Hpx in Hcv. apply check_video_classification in Hcv.
    unfold classification in Hcv. rewrite Hplays in Hcv.
    cbn [negb] in Hcv. subst x.
    apply corrupted_seen. by exists (reason_of w p). }
  split_and!.
  - exact Hcorr.
  - rewrite removals_run, Hex. by destruct dry_run.
  - intros Href. exact (corrupt_removed p Hdry Hex Hcorr Href).
Qed.

(** X19: a log that cannot be opened ends the run.  With candidates found
    and at least one worker, when the host refuses to open [log_path] for
    writing the run ends with the exception of [open], after the
    "Scanning" line and the pause: no probe result is handled, nothing is
    written or removed, and the filesystem is unchanged. *)
Theorem unopenable_log_ends_run e :
  files <> [] ->
  1 <= workers ->
  open_refused w log_path = Some e ->
  r_exit r = Raise e
  /\ run_events st r
     = [EvPrint ("Scanning " +:+ pretty (length files)
                   +:+ " video files using " +:+ pretty workers
                   +:+ " workers...");
        EvSleep]
  /\ fs (r_state r) = fs st
  /\ r_seen r = [] /\ r_good r = [] /\ r_corrupted r = [].
Proof.
  intros Hne Hw Hopen.
  rewrite (scan_videos_open_refused w sched directory workers dry_run log_path
             st e Hne Hw Hopen).
  unfold run_events. cbn. rewrite <- !app_assoc. by rewrite drop_app_length.
Qed.

End beyond.

(** ** Across runs *)

(** X13: a dry run predicts the real run.  For the same host and the same
    order of completion, the run with [dry_run] on and the run with it off
    return the same way, handle the same results, build the same good and
    corrupt sets and write the same log records; the dry run removes
    nothing, and when it returns normally its corrupt set is exactly the
    list of paths the real run hands to [os.remove]. *)
Theorem dry_run_predicts_real_run w sched directory workers lp st :
  r_exit (scan_videos w sched directory workers true lp st)
  = r_exit (scan_videos w sched directory workers false lp st)
  /\ r_seen (scan_videos w sched directory workers true lp st)
     = r_seen (scan_videos w sched directory workers false lp st)
  /\ r_good (scan_videos w sched directory workers true lp st)
     = r_good (scan_videos w sched directory workers false lp st)
  /\ r_corrupted (scan_videos w sched directory workers true lp st)
     = r_corrupted (scan_videos w sched directory workers false lp st)
  /\ log_writes lp
       (run_events st (scan_videos w sched directory workers true lp st))
     = log_writes lp
         (run_events st (scan_videos w sched directory workers false lp st))
  /\ removals (run_events st (scan_videos w sched directory workers true lp st))
     = []
  /\ (r_exit (scan_videos w sched directory workers true lp st) = Ok tt ->
      removals
        (run_events st (scan_videos w sched directory workers false lp st))
      = r_corrupted (scan_videos w sched directory workers true lp st)).
Proof.
  assert (Hsame :
    r_exit (scan_videos w sched directory workers true lp st)
    = r_exit (scan_videos w sched directory workers false lp st)
    /\ r_seen (scan_videos w sched directory workers true lp st)
       = r_seen (scan_videos w sched directory workers false lp st)
    /\ r_good (scan_videos w sched directory workers true lp st)
       = r_good (scan_videos w sched directory workers false lp st)
    /\ r_corrupted (scan_videos w sched directory workers true lp st)
       = r_corrupted (scan_videos w sched directory workers false lp st)).
  { unfold scan_videos.
    destruct (discover w directory) as [|f0 files']; [done|].
    destruct (workers <? 1); [done|].
    destruct (open_w w lp _) as [[[]|e] st']; [|done]. cbv zeta.
    by destruct (a_exit _). }
  destruct Hsame as (Hex & Hseen & Hgood & Hcorr).
  split_and!; try done.
  - by rewrite !log_writes_run, Hseen.
  - by rewrite removals_run.
  - intros Hok. rewrite removals_run, <- Hex, Hok. done.
Qed.


(** ** More properties of the probe *)

(** X15: when the probe says playable, and when it raises.  The probe
    returns playable exactly when the process exits with status 0 within
    the timeout and what it wrote to stdout and stderr decodes as text, and
    the reason is then "ok".  It raises exactly when the process cannot be
    started for another cause than a missing executable, and then raises
    that very exception, or when the process exits within the timeout and
    its stdout, or else its stderr, does not decode, and then raises the
    UnicodeDecodeError.  In every other case it returns a failed
    outcome. *)
Theorem probe_playable_iff_clean_exit w path timeout :
  (forall reason,
     value (vlc_can_play w path timeout) = Ok (true, reason)
     <-> (exists dur out err o e,
            exec w (cvlc_argv path) = Exits dur 0 out err
            /\ Z.of_N dur <= timeout
            /\ decode w out = Text o
            /\ decode w err = Text e)
         /\ reason = "ok")
  /\ (forall x,
        value (vlc_can_play w path timeout) = Raise x
        <-> (exists name msg,
               exec w (cvlc_argv path) = CannotSpawn (SpawnError name msg)
               /\ x = Exn (OtherException name) msg)
            \/ (exists dur rc out err msg,
                  exec w (cvlc_argv path) = Exits dur rc out err
                  /\ Z.of_N dur <= timeout
                  /\ (decode w out = Undecodable msg
                      \/ (exists o, decode w out = Text o)
                         /\ decode w err = Undecodable msg)
                  /\ x = Exn (OtherException "UnicodeDecodeError") msg)).
Proof.
  rewrite vlc_can_play_value. unfold read_text.
  destruct (exec w (cvlc_argv path)) as [[|name msg]|dur rc out err|] eqn:Hex.
  - split; intros x; split; try discriminate.
    + by intros [(? & ? & ? & ? & ? & ? & _) _].
    + by intros [(? & ? & ? & _)|(? & ? & ? & ? & ? & ? & _)].
  - split; intros x; split; try discriminate.
    + by intros [(? & ? & ? & ? & ? & ? & _) _].
    + intros [= <-]. left. eauto.
    + by intros [(? & ? & [= <- <-] & ->)|(? & ? & ? & ? & ? & ? & _)].
  - destruct (Z.of_N dur <=? timeout) eqn:Hd.
    2:{ apply Z.leb_gt in Hd. split; intros x; split; try discriminate.
        - intros [(? & ? & ? & ? & ? & [= <- _ _ _] & ? & _) _]. lia.
        - intros [(? & ? & ? & _)|(? & ? & ? & ? & ? & [= <- _ _ _] & ? & _)];
            [done|lia]. }
    apply Z.leb_le in Hd.
    destruct (decode w out) as [o|mo] eqn:Hout.
    2:{ split; intros x; split; try discriminate.
        - intros [(? & ? & ? & ? & ? & [= _ _ <- _] & _ & ? & _) _].
          congruence.
        - intros [= <-]. right. exists dur, rc, out, err, mo. eauto.
        - intros [(? & ? & ? & _)
                 |(? & ? & ? & ? & m & [= _ _ <- <-] & _ & Hm & ->)];
            [done|].
          destruct Hm as [Hm|[[o' Ho] _]]; [|congruence].
          rewrite Hout in Hm. by injection Hm as ->. }
    destruct (decode w err) as [e|me] eqn:Herr.
    2:{ split; intros x; split; try discriminate.
        - intros [(? & ? & ? & ? & ? & [= _ _ <- <-] & _ & _ & ?) _].
          congruence.
        - intros [= <-]. right. exists dur, rc, out, err, me.
          split_and!; eauto.
        - intros [(? & ? & ? & _)
                 |(? & ? & ? & ? & m & [= _ _ <- <-] & _ & Hm & ->)];
            [done|].
          destruct Hm as [Hm|[_ Hm]]; [congruence|].
          rewrite Herr in Hm. by injection Hm as ->. }
    destruct (rc =? 0) eqn:Hrc.
    + apply Z.eqb_eq in Hrc as ->. split; intros x; split; try discriminate.
      * intros [= <-]. split; [|done]. exists dur, out, err, o, e. eauto.
      * by intros [_ ->].
      * intros [(? & ? & ? & _)
               |(? & ? & ? & ? & m & [= _ _ <- <-] & _ & Hm & _)];
          [done|].
        destruct Hm as [Hm|[_ Hm]]; congruence.
    + apply Z.eqb_neq in Hrc. split; intros x; split; try discriminate.
      * intros [(? & ? & ? & ? & ? & [= _ -> _ _] & _) _]. done.
      * intros [(? & ? & ? & _)
               |(? & ? & ? & ? & m & [= _ _ <- <-] & _ & Hm & _)];
          [done|].
        destruct Hm as [Hm|[_ Hm]]; congruence.
  - split; intros x; split; try discriminate.
    + by intros [(? & ? & ? & ? & ? & ? & _) _].
    + by intros [(? & ? & ? & _)|(? & ? & ? & ? & ? & ? & _)].
Qed.

Lemma rstrip_cons c s :
  rstrip (String c s)
  = match rstrip s with
    | EmptyString => if isspace c then EmptyString else String c EmptyString
    | t => String c t
    end.
Proof. reflexivity. Qed.

Lemma rstrip_idempotent s : rstrip (rstrip s) = rstrip s.
Proof.
  induction s as [|c s IH]; [done|]. rewrite rstrip_cons.
  destruct (rstrip s) as [|d t] eqn:Hs.
  - destruct (isspace c) eqn:Hc; [done|]. rewrite rstrip_cons. cbn [rstrip].
    by rewrite Hc.
  - rewrite rstrip_cons, IH. reflexivity.
Qed.

Lemma strip_idempotent s : strip (strip s) = strip s.
Proof.
  unfold strip.
  destruct (rstrip (lstrip s)) as [|c t] eqn:Hs; [done|].
  assert (Hc : isspace c = false) by (by eapply strip_no_leading_space).
  rewrite lstrip_fixed by done. rewrite <- Hs. apply rstrip_idempotent.
Qed.

(** X16: the reason is trimmed.  Whatever the process prints, the reason
    the probe returns has no leading or trailing whitespace: stripping it
    again changes nothing, its first and its last character are not
    whitespace. *)
Theorem probe_reason_is_trimmed w path timeout b reason :
  value (vlc_can_play w path timeout) = Ok (b, reason) ->
  strip reason = reason
  /\ (forall c t, reason = String c t -> isspace c = false)
  /\ (forall t c, reason = t +:+ String c "" -> isspace c = false).
Proof.
  intros Hv.
  assert (Hfix : strip reason = reason).
  { rewrite vlc_can_play_value in Hv.
    destruct (exec w (cvlc_argv path)) as [[|name msg]|dur rc out err|];
      try (by injection Hv as <- <-); try discriminate.
    destruct (Z.of_N dur <=? timeout); [|by injection Hv as <- <-].
    destruct (read_text w out); [|discriminate].
    destruct (read_text w err); [|discriminate].
    destruct (rc =? 0); injection Hv as <- <-; [reflexivity|].
    apply strip_idempotent. }
  split_and!; [done|..].
  - intros c t Hr. rewrite <- Hfix in Hr. by eapply strip_no_leading_space.
  - intros t c Hr. rewrite <- Hfix in Hr. by eapply strip_no_trailing_space.
Qed.

(** ** The further properties, on the scenarios *)

Import Scenario2.

Lemma none_listed :
  Forall (fun p => suffix_lower w_none p ∉ VIDEO_EXTS) (rglob w_none "videos").
Proof.
  repeat constructor. rewrite VIDEO_EXTS_spec.
  rewrite !elem_of_cons, elem_of_nil. vm_compute. intuition discriminate.
Qed.

(** X1, where the host does not let B be removed: its removal fails with
    the host's message and B stays; C is removed all the same. *)
Lemma deletion_loop_isolates_failures_witness :
  trace (delete_all w_locked [B_mov; C_mkv] st_abc)
  = [EvRemove B_mov false;
     EvPrint "Could not delete videos/B.MOV: [Errno 13] Permission denied: 'videos/B.MOV'";
     EvRemove C_mkv true; EvPrint "Deleted: videos/C.mkv"]
  /\ fs (delete_all w_locked [B_mov; C_mkv] st_abc) !! C_mkv = None
  /\ fs (delete_all w_locked [B_mov; C_mkv] st_abc) !! B_mov
     = fs st_abc !! B_mov.
Proof.
  pose proof (deletion_loop_isolates_failures w_locked [B_mov; C_mkv] st_abc)
    as (Htrace & _ & Hgone & Hkept & _).
  split_and!.
  - rewrite Htrace. vm_compute. reflexivity.
  - apply Hgone; [right; left|reflexivity].
  - apply Hkept; [left|]. eexists. vm_compute. reflexivity.
Defined.

(** X1, when B is already gone: the call fails with "No such file", where
    the path is quoted as [repr] does. *)
Example deletion_of_a_missing_file :
  trace (delete_all w_abc [B_mov; C_mkv] st_gone)
  = [EvRemove B_mov false;
     EvPrint "Could not delete videos/B.MOV: [Errno 2] No such file or directory: 'videos/B.MOV'";
     EvRemove C_mkv true; EvPrint "Deleted: videos/C.mkv"].
Proof. vm_compute. reflexivity. Qed.

(** X2, in a directory that holds only the notes. *)
Lemma no_candidates_no_effects_witness :
  Forall (fun p => suffix_lower w_none p ∉ VIDEO_EXTS) (rglob w_none "videos")
  /\ (r_exit run_none = Ok tt
      /\ run_events st_abc run_none = [EvPrint "No video files found."]
      /\ fs (r_state run_none) = fs st_abc
      /\ r_seen run_none = [] /\ r_good run_none = []
      /\ r_corrupted run_none = []).
Proof.
  split; [exact none_listed|].
  exact (no_candidates_no_effects w_none [] "videos" 2 false LOG st_abc
           none_listed).
Defined.

(** X3, with [--workers 0]. *)
Lemma invalid_worker_count_raises_before_log_witness :
  (discover w_abc "videos" <> [] /\ 0 < 1)
  /\ (r_exit run_zero
      = Raise (Exn ValueError "Number of processes must be at least 1")
      /\ run_events st_abc run_zero
         = [EvPrint ("Scanning " +:+ pretty (length (discover w_abc "videos"))
                       +:+ " video files using " +:+ pretty 0
                       +:+ " workers...");
            EvSleep]
      /\ fs (r_state run_zero) = fs st_abc
      /\ r_seen run_zero = [] /\ r_good run_zero = []
      /\ r_corrupted run_zero = []).
Proof.
  split; [split; [exact discover_abc_nonempty|lia]|].
  apply (invalid_worker_count_raises_before_log
           w_abc [] "videos" 0 false LOG st_abc);
    [exact discover_abc_nonempty|lia].
Defined.

Lemma notes_not_video : suffix_lower w_abc NOTES ∉ VIDEO_EXTS.
Proof.
  rewrite VIDEO_EXTS_spec, !elem_of_cons, elem_of_nil.
  vm_compute. intuition discriminate.
Qed.

Lemma NOTES_not_LOG : NOTES <> LOG.
Proof. discriminate. Qed.

(** X4, at the notes of the first scenario. *)
Lemma only_video_suffixes_are_candidates_witness :
  (suffix_lower w_abc NOTES ∉ VIDEO_EXTS)
  /\ (NOTES ∉ removals (run_events st_abc run_abc))
  /\ fs (r_state run_abc) !! NOTES = fs st_abc !! NOTES.
Proof.
  pose proof (only_video_suffixes_are_candidates
                w_abc [1%nat] "videos" 2 false LOG st_abc) as (_ & _ & H).
  destruct (H NOTES notes_not_video) as (_ & _ & _ & Hrem & Hfs).
  split; [exact notes_not_video|]. split; [exact Hrem|].
  exact (Hfs NOTES_not_LOG).
Defined.

Lemma run_abc_exit : r_exit run_abc = Ok tt.
Proof. vm_compute. reflexivity. Qed.

Lemma run_locked_exit : r_exit run_locked = Ok tt.
Proof. vm_compute. reflexivity. Qed.

(** X5, on the host that does not let B be removed. *)
Lemma real_run_removes_exactly_corrupt_witness :
  (false = false /\ r_exit run_locked = Ok tt)
  /\ (removals (run_events st_abc run_locked) = r_corrupted run_locked
      /\ (forall p, p ∈ r_corrupted run_locked ->
            remove_refused w_locked p = None ->
            fs (r_state run_locked) !! p = None)
      /\ (forall p, p ∈ r_corrupted run_locked ->
            is_Some (remove_refused w_locked p) ->
            p <> LOG -> fs (r_state run_locked) !! p = fs st_abc !! p)).
Proof.
  split; [split; [reflexivity|exact run_locked_exit]|].
  apply (real_run_removes_exactly_corrupt
           w_locked [1%nat] "videos" 2 false LOG st_abc);
    [reflexivity|exact run_locked_exit].
Defined.

(** The same run, evaluated: B is reported and stays, C is removed. *)
Example scenario_locked :
  r_corrupted run_locked = [B_mov; C_mkv]
  /\ removals (run_events st_abc run_locked) = [B_mov; C_mkv]
  /\ fs (r_state run_locked) !! B_mov = Some "bb"
  /\ fs (r_state run_locked) !! C_mkv = None.
Proof. vm_compute. by split_and!. Qed.

(** X6, at A in the good set of the first scenario. *)
Lemma sets_agree_with_probe_witness :
  A_mp4 ∈ r_good run_abc /\ plays w_abc A_mp4 = true.
Proof.
  assert (Hin : A_mp4 ∈ r_good run_abc) by (vm_compute; left).
  split; [exact Hin|].
  exact (proj1 (sets_agree_with_probe w_abc [1%nat] "videos" 2 false LOG st_abc)
               A_mp4 Hin).
Defined.

Lemma A_plays : plays w_abc A_mp4 = true.
Proof. vm_compute. reflexivity. Qed.

(** X7, at A in the first scenario. *)
Lemma playable_file_is_kept_witness :
  plays w_abc A_mp4 = true
  /\ ((A_mp4 ∉ r_corrupted run_abc)
      /\ (A_mp4 ∉ removals (run_events st_abc run_abc))
      /\ (A_mp4 <> LOG -> fs (r_state run_abc) !! A_mp4 = fs st_abc !! A_mp4)).
Proof.
  split; [exact A_plays|].
  exact (playable_file_is_kept w_abc [1%nat] "videos" 2 false LOG st_abc
           A_mp4 A_plays).
Defined.


Lemma run_one_worker_exit : r_exit run_one_worker = Ok tt.
Proof. vm_compute. reflexivity. Qed.

(** X9, with one worker and a schedule that asks for another order. *)
Lemma one_worker_is_sequential_witness :
  (1 = 1 /\ r_exit run_one_worker = Ok tt)
  /\ r_seen run_one_worker = map (classification w_abc) (discover w_abc "videos")
  /\ r_good run_one_worker
     = filter (fun p => plays w_abc p = true) (discover w_abc "videos")
  /\ r_corrupted run_one_worker
     = filter (fun p => plays w_abc p = false) (discover w_abc "videos")
  /\ log_writes LOG (run_events st_abc run_one_worker)
     = map (fun p => item_line (classification w_abc p))
           (discover w_abc "videos").
Proof.
  split; [split; [reflexivity|exact run_one_worker_exit]|].
  exact (proj2 (one_worker_is_sequential
                  w_abc [5%nat; 7%nat] "videos" 1 false LOG st_abc eq_refl)
               run_one_worker_exit).
Defined.



(** X11, at the removal of B in the first scenario. *)
Lemma removal_only_after_log_closed_witness :
  run_events st_abc run_abc
  = take 15 (run_events st_abc run_abc)
      ++ EvRemove B_mov true :: drop 16 (run_events st_abc run_abc)
  /\ (false = false
      /\ r_exit run_abc = Ok tt
      /\ map item_path (r_seen run_abc) ≡ₚ discover w_abc "videos"
      /\ EvClose LOG ∈ take 15 (run_events st_abc run_abc)
      /\ log_writes LOG (take 15 (run_events st_abc run_abc))
         = map item_line (r_seen run_abc)
      /\ log_writes LOG (drop 16 (run_events st_abc run_abc)) = []).
Proof.
  assert (Heq : run_events st_abc run_abc
                = take 15 (run_events st_abc run_abc)
                    ++ EvRemove B_mov true
                    :: drop 16 (run_events st_abc run_abc))
    by (vm_compute; reflexivity).
  split; [exact Heq|].
  exact (removal_only_after_log_closed
           w_abc [1%nat] "videos" 2 false LOG st_abc _ _ _ _ Heq).
Defined.

Lemma run_abc_dry_exit : r_exit run_abc_dry = Ok tt.
Proof. vm_compute. reflexivity. Qed.

Lemma discover_locked_nonempty : discover w_locked "videos" <> [].
Proof. vm_compute. discriminate. Qed.

(** X12, on the host that does not let B be removed. *)
Lemma console_of_a_normal_run_witness :
  (discover w_locked "videos" <> [] /\ r_exit run_locked = Ok tt)
  /\ prints (run_events st_abc run_locked)
     = ["Scanning 3 video files using 2 workers...";
        corrupt_line "decoder error" B_mov; ok_line A_mp4;
        corrupt_line "timeout expired" C_mkv;
        NL +:+ "=== Scan Complete ===";
        "Good videos:     1"; "Corrupted videos: 2";
        "Log written to:   video_scan.log";
        NL +:+ "Deleting corrupted files...";
        "Could not delete videos/B.MOV: [Errno 13] Permission denied: 'videos/B.MOV'";
        "Deleted: videos/C.mkv"].
Proof.
  split; [split; [exact discover_locked_nonempty|exact run_locked_exit]|].
  unfold run_locked.
  rewrite (proj1 (console_of_a_normal_run
                    w_locked [1%nat] "videos" 2 false LOG st_abc
                    discover_locked_nonempty run_locked_exit)).
  vm_compute. reflexivity.
Defined.

(** X13, in the first scenario. *)
Lemma dry_run_predicts_real_run_witness :
  r_exit run_abc_dry = Ok tt
  /\ removals (run_events st_abc run_abc) = r_corrupted run_abc_dry.
Proof.
  split; [exact run_abc_dry_exit|].
  exact (proj2 (proj2 (proj2 (proj2 (proj2 (proj2
           (dry_run_predicts_real_run w_abc [1%nat] "videos" 2 LOG st_abc))))))
           run_abc_dry_exit).
Defined.


(** X15, at the probe of A in the first scenario. *)
Lemma probe_playable_iff_clean_exit_witness :
  ((exists dur out err o e,
      exec w_abc (cvlc_argv A_mp4) = Exits dur 0 out err
      /\ Z.of_N dur <= 30
      /\ decode w_abc out = Text o
      /\ decode w_abc err = Text e)
   /\ "ok" = "ok")
  /\ value (vlc_can_play w_abc A_mp4 30) = Ok (true, "ok").
Proof.
  assert (Hclean : (exists dur out err o e,
                      exec w_abc (cvlc_argv A_mp4) = Exits dur 0 out err
                      /\ Z.of_N dur <= 30
                      /\ decode w_abc out = Text o
                      /\ decode w_abc err = Text e)
                   /\ "ok" = "ok").
  { split; [|reflexivity]. exists 12%N, "", "", "", "".
    split_and!; [reflexivity|lia|reflexivity|reflexivity]. }
  split; [exact Hclean|].
  exact (proj2 (proj1 (probe_playable_iff_clean_exit w_abc A_mp4 30) "ok")
               Hclean).
Defined.

(** X15, where A's process exits with status 0 after writing a byte that
    is no text: the probe raises, and so does the checker. *)
Example probe_of_undecodable_output :
  plays w_binary A_mp4 = true
  /\ value (vlc_can_play w_binary A_mp4 30)
     = Raise (Exn (OtherException "UnicodeDecodeError")
                  "'utf-8' codec can't decode byte 0xff in position 0: invalid start byte")
  /\ is_ok (value (check_video w_binary A_mp4)) = false.
Proof. vm_compute. by split_and!. Qed.

Lemma B_probe : value (vlc_can_play w_abc B_mov 30) = Ok (false, "decoder error").
Proof. vm_compute. reflexivity. Qed.

(** X16, at the probe of B, whose stderr ends with a newline. *)
Lemma probe_reason_is_trimmed_witness :
  value (vlc_can_play w_abc B_mov 30) = Ok (false, "decoder error")
  /\ (strip "decoder error" = "decoder error"
      /\ (forall c t, "decoder error" = String c t -> isspace c = false)
      /\ (forall t c, "decoder error" = t +:+ String c "" -> isspace c = false)).
Proof.
  split; [exact B_probe|].
  exact (probe_reason_is_trimmed w_abc B_mov 30 false "decoder error" B_probe).
Defined.


Lemma C_discovered : C_mkv ∈ discover w_abc "videos".
Proof. rewrite discover_abc. right. right. left. Qed.

Lemma C_never_exits :
  ~ (exists dur out err,
       exec w_abc (cvlc_argv C_mkv) = Exits dur 0 out err
       /\ Z.of_N dur <= DEFAULT_TIMEOUT).
Proof. intros (dur & out & err & Hex & _). vm_compute in Hex. discriminate. Qed.

(** X18, at C, whose process hangs, in the first scenario. *)
Lemma unplayable_file_is_removed_witness :
  (false = false
   /\ r_exit run_abc = Ok tt
   /\ C_mkv ∈ discover w_abc "videos"
   /\ ~ (exists dur out err,
           exec w_abc (cvlc_argv C_mkv) = Exits dur 0 out err
           /\ Z.of_N dur <= DEFAULT_TIMEOUT))
  /\ (C_mkv ∈ r_corrupted run_abc
      /\ C_mkv ∈ removals (run_events st_abc run_abc)
      /\ (remove_refused w_abc C_mkv = None ->
          fs (r_state run_abc) !! C_mkv = None)).
Proof.
  split.
  - split_and!; [reflexivity|exact run_abc_exit|exact C_discovered
                |exact C_never_exits].
  - apply (unplayable_file_is_removed
             w_abc [1%nat] "videos" 2 false LOG st_abc C_mkv);
      [reflexivity|exact run_abc_exit|exact C_discovered|exact C_never_exits].
Defined.

Lemma discover_nolog_nonempty : discover w_nolog "videos" <> [].
Proof. vm_compute. discriminate. Qed.

(** X19, where the log path is a directory. *)
Lemma unopenable_log_ends_run_witness :
  (discover w_nolog "videos" <> [] /\ 1 <= 2
   /\ open_refused w_nolog LOG
      = Some (Exn (OtherException "IsADirectoryError")
                  ("[Errno 21] Is a directory: " +:+ quoted LOG)))
  /\ (r_exit run_nolog
      = Raise (Exn (OtherException "IsADirectoryError")
                   ("[Errno 21] Is a directory: " +:+ quoted LOG))
      /\ run_events st_abc run_nolog
         = [EvPrint ("Scanning " +:+ pretty (length (discover w_nolog "videos"))
                       +:+ " video files using " +:+ pretty 2
                       +:+ " workers...");
            EvSleep]
      /\ fs (r_state run_nolog) = fs st_abc
      /\ r_seen run_nolog = [] /\ r_good run_nolog = []
      /\ r_corrupted run_nolog = []).
Proof.
  split; [split_and!; [exact discover_nolog_nonempty|lia|reflexivity]|].
  apply (unopenable_log_ends_run w_nolog [1%nat] "videos" 2 false LOG st_abc);
    [exact discover_nolog_nonempty|lia|reflexivity].
Defined.

(** Where the probes of B and of C both fail to start, the run ends with
    the exception of the one that finishes first. *)
Example first_exception_to_arrive_ends_run :
  r_exit (scan_videos w_two_crashes [1%nat] "videos" 3 false LOG st_abc)
  = Raise (Exn (OtherException "BlockingIOError")
               "[Errno 11] Resource temporarily unavailable")
  /\ r_exit (scan_videos w_two_crashes [2%nat] "videos" 3 false LOG st_abc)
     = Raise (Exn (OtherException "OSError") "[Errno 24] Too many open files").
Proof. vm_compute. by split_and!. Qed.
